(** * dbx/utils/common.py: the local project-state store, the legacy API shim,
      the file uploader and the branch resolver.

    The Python module is embedded function by function.  Dictionaries with
    string keys are [gmap string _]; the file system is a finite map from path
    strings to nodes; exceptions are values of [exn] returned next to the
    state reached when they were raised. *)

From Stdlib Require Import ZArith QArith String Ascii List Lia.
From Stdlib Require Import DecimalString DecimalZ DecimalPos DecimalFacts.
From stdpp Require Import base option list gmap strings.

#[local] Set Warnings "-register-all".
#[local] Open Scope string_scope.
#[local] Open Scope list_scope.

(** ** Python exceptions raised along the modelled paths *)

Inductive exn : Type :=
  | FileNotFoundError
  | IsADirectoryError
  | NotADirectoryError
  | FileExistsError
  | JSONDecodeError
  | AttributeError
  | IndexError
  | HTTPError
  | ConnectionError
  | ProjectNotConfigured.

Inductive result (A : Type) : Type :=
  | Ok (a : A)
  | Raise (e : exn).
Arguments Ok {A} a.
Arguments Raise {A} e.

#[global] Instance exn_eq_dec : EqDecision exn.
Proof. solve_decision. Defined.

(** ** JSON documents

    The values [json.load] produces and [json.dump] accepts, without floats:
    [None], [bool], [int], [str], [list] and [dict] with [str] keys.  A
    Python [dict] compares without regard to insertion order, like [gmap]. *)

Inductive json : Type :=
  | JNull
  | JBool (b : bool)
  | JInt (z : Z)
  | JStr (s : string)
  | JArr (l : list json)
  | JObj (m : gmap string json).

Abbreviation dict := (gmap string json).

Module Json.

(** Text is handled as a list of characters inside the codec. *)
Abbreviation text := (list ascii).

Definition chars (s : string) : text := list_ascii_of_string s.

Definition quote : ascii := "034"%char.
Definition backslash : ascii := "092"%char.

(** *** Encoder: [json.dump(obj, f, indent=4)] *)

Definition hex_digit (n : N) : ascii :=
  if (n <? 10)%N then ascii_of_N (48 + n) else ascii_of_N (87 + n).

(** [ESCAPE_ASCII]: everything outside [' ' .. '~'], the quote and the
    backslash are escaped ([ensure_ascii=True]). *)
Definition escape_char (c : ascii) : text :=
  let n := N_of_ascii c in
  if (n =? 34)%N then [backslash; quote]
  else if (n =? 92)%N then [backslash; backslash]
  else if (n =? 10)%N then [backslash; "n"%char]
  else if (n =? 13)%N then [backslash; "r"%char]
  else if (n =? 9)%N then [backslash; "t"%char]
  else if (n =? 8)%N then [backslash; "b"%char]
  else if (n =? 12)%N then [backslash; "f"%char]
  else if ((n <? 32) || (126 <? n))%N
       then [backslash; "u"%char; "0"%char; "0"%char;
             hex_digit (n / 16); hex_digit (n mod 16)]
  else [c].

Definition encode_string (s : string) : text :=
  quote :: flat_map escape_char (chars s) ++ [quote].

Fixpoint uint_chars (d : Decimal.uint) : text :=
  match d with
  | Decimal.Nil => []
  | Decimal.D0 d => "0"%char :: uint_chars d
  | Decimal.D1 d => "1"%char :: uint_chars d
  | Decimal.D2 d => "2"%char :: uint_chars d
  | Decimal.D3 d => "3"%char :: uint_chars d
  | Decimal.D4 d => "4"%char :: uint_chars d
  | Decimal.D5 d => "5"%char :: uint_chars d
  | Decimal.D6 d => "6"%char :: uint_chars d
  | Decimal.D7 d => "7"%char :: uint_chars d
  | Decimal.D8 d => "8"%char :: uint_chars d
  | Decimal.D9 d => "9"%char :: uint_chars d
  end.

(** [int.__repr__] *)
Definition encode_int (z : Z) : text :=
  match Z.to_int z with
  | Decimal.Pos d => uint_chars d
  | Decimal.Neg d => "-"%char :: uint_chars d
  end.

(** A newline followed by [4 * level] spaces. *)
Definition newline_indent (level : nat) : text :=
  "010"%char :: repeat " "%char (4 * level).

Fixpoint join (sep : text) (items : list text) : text :=
  match items with
  | [] => []
  | [x] => x
  | x :: rest => x ++ sep ++ join sep rest
  end.

Definition block (opening closing : ascii) (level : nat) (items : list text)
  : text :=
  match items with
  | [] => [opening; closing]
  | _ => opening :: newline_indent (S level)
           ++ join (","%char :: newline_indent (S level)) items
           ++ newline_indent level ++ [closing]
  end.

(** The members of an object are written in the order the map lists them,
    not in the order of insertion that [json.dump] follows: the texts of two
    equal documents are equal here, so an equality of two texts says no
    more than the equality of the documents read back from them. *)
Fixpoint encode (level : nat) (j : json) : text :=
  match j with
  | JNull => chars "null"
  | JBool true => chars "true"
  | JBool false => chars "false"
  | JInt z => encode_int z
  | JStr s => encode_string s
  | JArr l => block "["%char "]"%char level (map (encode (S level)) l)
  | JObj m =>
      block "{"%char "}"%char level
        (map_fold (fun k v acc =>
                     (encode_string k ++ chars ": " ++ encode (S level) v) :: acc)
                  [] m)
  end.

Definition dumps (j : json) : string := string_of_list_ascii (encode 0 j).

(** *** Decoder: [json.load(f)] *)

Definition is_ws (c : ascii) : bool :=
  let n := N_of_ascii c in
  ((n =? 32) || (n =? 10) || (n =? 13) || (n =? 9))%N.

Fixpoint skip_ws (s : text) : text :=
  match s with
  | c :: r => if is_ws c then skip_ws r else s
  | [] => []
  end.

Definition digit_of (c : ascii) : option (Decimal.uint -> Decimal.uint) :=
  match N_of_ascii c with
  | 48%N => Some Decimal.D0 | 49%N => Some Decimal.D1
  | 50%N => Some Decimal.D2 | 51%N => Some Decimal.D3
  | 52%N => Some Decimal.D4 | 53%N => Some Decimal.D5
  | 54%N => Some Decimal.D6 | 55%N => Some Decimal.D7
  | 56%N => Some Decimal.D8 | 57%N => Some Decimal.D9
  | _ => None
  end.

Definition is_digit (c : ascii) : bool :=
  match digit_of c with Some _ => true | None => false end.

(** The longest prefix of decimal digits. *)
Fixpoint scan_uint (s : text) : Decimal.uint * text :=
  match s with
  | c :: r =>
      match digit_of c with
      | Some k => let (d, r') := scan_uint r in (k d, r')
      | None => (Decimal.Nil, s)
      end
  | [] => (Decimal.Nil, [])
  end.

(** [NUMBER_RE] restricted to its integer part: an optional minus sign, then
    a single zero or a nonzero digit followed by digits.  The sign has been
    consumed by the caller. *)
Definition scan_nat (s : text) : option (Decimal.uint * text) :=
  match s with
  | c :: r =>
      if (N_of_ascii c =? 48)%N then Some (Decimal.D0 Decimal.Nil, r)
      else if is_digit c then Some (scan_uint s)
      else None
  | [] => None
  end.

Definition decode_int (s : text) : option (json * text) :=
  match s with
  | c :: r =>
      if (N_of_ascii c =? 45)%N
      then match scan_nat r with
           | Some (d, r') => Some (JInt (Z.of_int (Decimal.Neg d)), r')
           | None => None
           end
      else match scan_nat s with
           | Some (d, r') => Some (JInt (Z.of_int (Decimal.Pos d)), r')
           | None => None
           end
  | [] => None
  end.

Definition hex_value (c : ascii) : option N :=
  let n := N_of_ascii c in
  if ((48 <=? n) && (n <=? 57))%N then Some (n - 48)%N
  else if ((97 <=? n) && (n <=? 102))%N then Some (n - 87)%N
  else if ((65 <=? n) && (n <=? 70))%N then Some (n - 55)%N
  else None.

(** The character named by the four hex digits of a [\uXXXX] escape; text
    is modelled with code points below 256, an escape beyond them is
    rejected. *)
Definition unicode_escape (a b c d : ascii) : option ascii :=
  match hex_value a, hex_value b, hex_value c, hex_value d with
  | Some x3, Some x2, Some x1, Some x0 =>
      if ((x3 =? 0) && (x2 =? 0))%N then Some (ascii_of_N (16 * x1 + x0))
      else None
  | _, _, _, _ => None
  end.

(** [BACKSLASH] table of the decoder. *)
Definition unescape (c : ascii) : option ascii :=
  match N_of_ascii c with
  | 34%N => Some quote
  | 92%N => Some backslash
  | 47%N => Some "/"%char
  | 98%N => Some "008"%char
  | 102%N => Some "012"%char
  | 110%N => Some "010"%char
  | 114%N => Some "013"%char
  | 116%N => Some "009"%char
  | _ => None
  end.

Definition cons_fst {A B} (a : A) (r : option (list A * B))
  : option (list A * B) :=
  match r with Some (l, b) => Some (a :: l, b) | None => None end.

(** [scanstring] in strict mode, entered after the opening quote. *)
Fixpoint scan_string (s : text) : option (text * text) :=
  match s with
  | [] => None
  | c :: r =>
      if (N_of_ascii c =? 34)%N then Some ([], r)
      else if (N_of_ascii c =? 92)%N then
        match r with
        | e :: r1 =>
            if (N_of_ascii e =? 117)%N then
              match r1 with
              | h3 :: h2 :: h1 :: h0 :: r2 =>
                  match unicode_escape h3 h2 h1 h0 with
                  | Some x => cons_fst x (scan_string r2)
                  | None => None
                  end
              | _ => None
              end
            else match unescape e with
                 | Some x => cons_fst x (scan_string r1)
                 | None => None
                 end
        | [] => None
        end
      else if (N_of_ascii c <? 32)%N then None
      else cons_fst c (scan_string r)
  end.

Definition decode_string (s : text) : option (string * text) :=
  match scan_string s with
  | Some (body, r) => Some (string_of_list_ascii body, r)
  | None => None
  end.

Definition expect (word : text) (v : json) (s : text) : option (json * text) :=
  if decide (take (length word) s = word)
  then Some (v, drop (length word) s) else None.

(** A later duplicate of a key replaces the earlier one, as in
    [dict(pairs)]. *)
Definition dict_of_pairs (kvs : list (string * json)) : dict :=
  list_to_map (reverse kvs).

(** [scan_once], with the nesting bounded by [fuel]; [decode_items] and
    [decode_members] are the loops of [JSONArray] and [JSONObject], entered
    in front of an element and in front of a key. *)
Fixpoint decode (fuel : nat) (s : text) : option (json * text) :=
  match fuel with
  | O => None
  | S n =>
      match s with
      | [] => None
      | c :: r =>
          let k := N_of_ascii c in
          if (k =? 34)%N then
            match decode_string r with
            | Some (str, r') => Some (JStr str, r')
            | None => None
            end
          else if (k =? 123)%N then
            match skip_ws r with
            | c' :: r' =>
                if (N_of_ascii c' =? 125)%N then Some (JObj ∅, r')
                else match decode_members n (c' :: r') with
                     | Some (kvs, r'') => Some (JObj (dict_of_pairs kvs), r'')
                     | None => None
                     end
            | [] => None
            end
          else if (k =? 91)%N then
            match skip_ws r with
            | c' :: r' =>
                if (N_of_ascii c' =? 93)%N then Some (JArr [], r')
                else match decode_items n (c' :: r') with
                     | Some (l, r'') => Some (JArr l, r'')
                     | None => None
                     end
            | [] => None
            end
          else if (k =? 110)%N then expect (chars "null") JNull s
          else if (k =? 116)%N then expect (chars "true") (JBool true) s
          else if (k =? 102)%N then expect (chars "false") (JBool false) s
          else decode_int s
      end
  end
with decode_items (fuel : nat) (s : text) : option (list json * text) :=
  match fuel with
  | O => None
  | S n =>
      match decode n s with
      | Some (v, r) =>
          match skip_ws r with
          | c :: r' =>
              if (N_of_ascii c =? 44)%N
              then cons_fst v (decode_items n (skip_ws r'))
              else if (N_of_ascii c =? 93)%N then Some ([v], r')
              else None
          | [] => None
          end
      | None => None
      end
  end
with decode_members (fuel : nat) (s : text)
  : option (list (string * json) * text) :=
  match fuel with
  | O => None
  | S n =>
      match s with
      | q :: r0 =>
          if (N_of_ascii q =? 34)%N then
            match decode_string r0 with
            | Some (key, r1) =>
                match skip_ws r1 with
                | c1 :: r2 =>
                    if (N_of_ascii c1 =? 58)%N then
                      match decode n (skip_ws r2) with
                      | Some (v, r3) =>
                          match skip_ws r3 with
                          | c :: r' =>
                              if (N_of_ascii c =? 44)%N
                              then cons_fst (key, v)
                                     (decode_members n (skip_ws r'))
                              else if (N_of_ascii c =? 125)%N
                              then Some ([(key, v)], r')
                              else None
                          | [] => None
                          end
                      | None => None
                      end
                    else None
                | [] => None
                end
            | None => None
            end
          else None
      | [] => None
      end
  end.

(** [JSONDecoder.decode]: one value, surrounded by white space only. *)
Definition loads (s : string) : option json :=
  let t := chars s in
  match decode (S (length t)) (skip_ws t) with
  | Some (v, r) => match skip_ws r with [] => Some v | _ => None end
  | None => None
  end.

(** *** Measures for the decoder

    [jsize] bounds the fuel [decode] needs on the text of a document, and is
    itself bounded by the length of that text. *)

Fixpoint jsize (j : json) : nat :=
  match j with
  | JArr l => S (S (foldr (fun x acc => jsize x + acc) 0 l))
  | JObj m => S (S (map_fold (fun _ x acc => jsize x + acc) 0 m))
  | _ => 1
  end.

Definition sum_sizes (l : list json) : nat :=
  foldr (fun x acc => jsize x + acc) 0 l.

(** One [key: value] line of an object. *)
Definition entry (level : nat) (kv : string * json) : text :=
  encode_string kv.1 ++ chars ": " ++ encode (S level) kv.2.

(** A number is followed by something that cannot continue it. *)
Definition no_digit_ahead (r : text) : Prop :=
  match r with c :: _ => is_digit c = false | [] => True end.

Definition decodes (j : json) : Prop :=
  forall level r fuel, jsize j <= fuel -> no_digit_ahead r ->
    decode fuel (encode level j ++ r) = Some (j, r).

End Json.

(** ** Python strings *)

Module Str.

(** [s.split(sep)] for a one-character separator: never empty. *)
Fixpoint split (sep : ascii) (s : string) : list string :=
  match s with
  | EmptyString => [EmptyString]
  | String c r =>
      if decide (c = sep) then EmptyString :: split sep r
      else match split sep r with
           | h :: t => String c h :: t
           | [] => [String c EmptyString]
           end
  end.

Fixpoint starts_with (prefix s : string) : option string :=
  match prefix, s with
  | EmptyString, _ => Some s
  | String a p, String b r =>
      if decide (a = b) then starts_with p r else None
  | String _ _, EmptyString => None
  end.

(** [s.replace(old, new)] for a non-empty [old]: every occurrence, left to
    right, without overlap.  After a match the scan resumes behind it, which
    is [drop (length old - 1)] of the tail the recursion already holds;
    [skip] counts the characters of a match still to be passed over. *)
Fixpoint replace_from (skip : nat) (old new s : string) : string :=
  match s with
  | EmptyString => EmptyString
  | String c r =>
      match skip with
      | S k => replace_from k old new r
      | O =>
          match starts_with old s with
          | Some _ => new +:+ replace_from (String.length old - 1) old new r
          | None => String c (replace_from 0 old new r)
          end
      end
  end.

Definition replace (old new s : string) : string := replace_from 0 old new s.

End Str.

(** ** The working tree

    A path is the string the program hands to the system; [fs] maps the
    paths that exist to what is there.  The current directory is the parent
    of every path without a slash and always exists.  Paths are compared as
    they are written: two spellings of one file ([a//b], [./a/b]) are two
    paths here, so the facts below speak of the paths the program itself
    uses. *)

Inductive node : Type :=
  | File (content : string)
  | Dir.

(** What a run leaves behind besides the tree itself: lines printed by
    [dbx_echo] (without the time stamp) and the changes made to the tree, in
    the order they happened. *)
Inductive event : Type :=
  | Echo (message : string)
  | MadeDir (path : string)
  | Wrote (path : string) (content : string).

Record world : Type := World {
  fs : gmap string node;
  log : list event
}.

(** A computation over a state [S] that returns or raises; the state
    reached is kept in both cases. *)
Definition prog (S A : Type) : Type := S -> result A * S.

#[global] Instance prog_ret {S : Type} : MRet (prog S) := fun A a s => (Ok a, s).

#[global] Instance prog_bind {S : Type} : MBind (prog S) := fun A B k m s =>
  match m s with
  | (Ok a, s') => k a s'
  | (Raise e, s') => (Raise e, s')
  end.

Definition raise {S A : Type} (e : exn) : prog S A := fun s => (Raise e, s).

(** [try: body except caught: handler] *)
Definition try_except {S A : Type} (body : prog S A) (caught : exn)
    (handler : prog S A) : prog S A := fun s =>
  match body s with
  | (Raise e, s') => if decide (e = caught) then handler s' else (Raise e, s')
  | r => r
  end.

Abbreviation io := (prog world).

Definition emit (e : event) : io unit := fun w =>
  (Ok tt, World (fs w) (log w ++ [e])).

Module Os.

Definition slash : ascii := "/"%char.

Definition all_slashes (s : list ascii) : bool :=
  forallb (fun c => bool_decide (c = slash)) s.

(** [p[:p.rfind('/') + 1]] *)
Fixpoint upto_last_slash (s : list ascii) : list ascii :=
  match s with
  | [] => []
  | c :: r =>
      match upto_last_slash r with
      | [] => if decide (c = slash) then [c] else []
      | h => c :: h
      end
  end.

(** [s.rstrip('/')] *)
Fixpoint rstrip_slashes (s : list ascii) : list ascii :=
  match s with
  | [] => []
  | c :: r =>
      match rstrip_slashes r with
      | [] => if decide (c = slash) then [] else [c]
      | t => c :: t
      end
  end.

(** [posixpath.dirname] *)
Definition dirname (p : string) : string :=
  let head := upto_last_slash (list_ascii_of_string p) in
  string_of_list_ascii (if all_slashes head then head else rstrip_slashes head).

(** [p.endswith('/')] *)
Fixpoint last_is_slash (s : list ascii) : bool :=
  match s with
  | [] => false
  | c :: r =>
      match r with
      | [] => bool_decide (c = slash)
      | _ :: _ => last_is_slash r
      end
  end.

Definition ends_with_slash (p : string) : bool :=
  last_is_slash (list_ascii_of_string p).

(** The directory a path is looked up in: the current directory and the
    root always exist. *)
Definition parent (files : gmap string node) (p : string) : option node :=
  let d := dirname p in
  if all_slashes (list_ascii_of_string d) then Some Dir else files !! d.

(** Walking to [p]: the error of the walk, else what is found there
    ([None]: the directory is there, the entry is not). *)
Definition resolve (files : gmap string node) (p : string)
  : result (option node) :=
  if decide (p = EmptyString) then Raise FileNotFoundError
  else match parent files p with
       | None => Raise FileNotFoundError
       | Some (File _) => Raise NotADirectoryError
       | Some Dir => if ends_with_slash p then Ok (Some Dir) else Ok (files !! p)
       end.

(** [open(p, "w")] will succeed: the directory is there and [p] is not
    itself a directory. *)
Definition writable (files : gmap string node) (p : string) : bool :=
  match resolve files p with
  | Ok None | Ok (Some (File _)) => true
  | _ => false
  end.

(** [os.path.exists], [Path(p).exists()] *)
Definition exists_ (p : string) : io bool := fun w =>
  match resolve (fs w) p with
  | Ok (Some _) => (Ok true, w)
  | _ => (Ok false, w)
  end.

(** [open(p, "r")] followed by reading the whole file *)
Definition read_text (p : string) : io string := fun w =>
  match resolve (fs w) p with
  | Raise e => (Raise e, w)
  | Ok None => (Raise FileNotFoundError, w)
  | Ok (Some Dir) => (Raise IsADirectoryError, w)
  | Ok (Some (File content)) => (Ok content, w)
  end.

(** [open(p, "w")], writing [content] and closing *)
Definition write_text (p : string) (content : string) : io unit := fun w =>
  match resolve (fs w) p with
  | Raise e => (Raise e, w)
  | Ok (Some Dir) => (Raise IsADirectoryError, w)
  | Ok _ =>
      (Ok tt, World (<[p := File content]> (fs w)) (log w ++ [Wrote p content]))
  end.

(** [os.mkdir(p)] *)
Definition mkdir (p : string) : io unit := fun w =>
  match resolve (fs w) p with
  | Raise e => (Raise e, w)
  | Ok (Some _) => (Raise FileExistsError, w)
  | Ok None => (Ok tt, World (<[p := Dir]> (fs w)) (log w ++ [MadeDir p]))
  end.

End Os.

(** ** dbx/utils/common.py: constants *)

Definition DBX_PATH : string := ".dbx".
Definition INFO_FILE_PATH : string := DBX_PATH +:+ "/project.json".
Definition LOCK_FILE_PATH : string := DBX_PATH +:+ "/lock.json".
Definition CONF_PATH : string := "conf".
Definition DEFAULT_DEPLOYMENT_FILE_PATH : string := CONF_PATH +:+ "/deployment.json".

(** ** The JSON store *)

Definition json_load (text : string) : io json :=
  match Json.loads text with
  | Some j => mret j
  | None => raise JSONDecodeError
  end.

Definition read_json (file_path : string) : io json :=
  text ← Os.read_text file_path;
  json_load text.

Definition write_json (content : dict) (file_path : string) : io unit :=
  Os.write_text file_path (Json.dumps (JObj content)).

(** [target.update(other)]: only a [dict] has the method; the keys of
    [other] replace those of [target]. *)
Definition dict_update (target : json) (other : dict) : io dict :=
  match target with
  | JObj m => mret (other ∪ m)
  | _ => raise AttributeError
  end.

(** [target.get(key)]: [None] for a missing key. *)
Definition dict_get (target : json) (key : string) : io json :=
  match target with
  | JObj m => mret (default JNull (m !! key))
  | _ => raise AttributeError
  end.

Definition update_json (new_content : dict) (file_path : string) : io unit :=
  content ← try_except (read_json file_path) FileNotFoundError (mret (JObj ∅));
  content ← dict_update content new_content;
  write_json content file_path.

Module ContextLockFile.

Definition set_context (context_id : string) : io unit :=
  update_json {[ "context_id" := JStr context_id ]} LOCK_FILE_PATH.

Definition get_context : io json :=
  present ← Os.exists_ LOCK_FILE_PATH;
  if present : bool
  then (content ← read_json LOCK_FILE_PATH; dict_get content "context_id")
  else mret JNull.

End ContextLockFile.

Module DeploymentFile.

(** The object holds its path only: [self._path]. *)
Definition get_environment (_path : string) (environment : string) : io json :=
  content ← read_json _path;
  dict_get content environment.

Definition update_environment (_path : string) (environment : string)
    (content : dict) : io unit :=
  environment_data ← get_environment _path environment;
  environment_data ← dict_update environment_data content;
  update_json {[ environment := JObj environment_data ]} _path.

End DeploymentFile.

Definition dbx_echo (message : string) : io unit := emit (Echo message).

Module InfoFile.

Section WithTemplate.

(** The content of [DEPLOYMENT_TEMPLATE_PATH], a resource of the installed
    package outside the working tree; [None] when the resource is missing. *)
Variable template : option string.

(** [shutil.copy(DEPLOYMENT_TEMPLATE_PATH, dst)] for a [dst] that is not a
    directory, as the caller has checked. *)
Definition copy_template (dst : string) : io unit :=
  match template with
  | Some content => Os.write_text dst content
  | None => raise FileNotFoundError
  end.

Definition _create_dir : io unit :=
  present ← Os.exists_ DBX_PATH;
  if present : bool then mret tt
  else (dbx_echo "dbx directory is not present, creating it";;
        Os.mkdir DBX_PATH).

Definition _create_deployment_file : io unit :=
  conf ← Os.exists_ CONF_PATH;
  (if conf : bool then mret tt else Os.mkdir CONF_PATH);;
  present ← Os.exists_ DEFAULT_DEPLOYMENT_FILE_PATH;
  if present : bool then mret tt
  else (dbx_echo "dbx deployment file is not present, creating it from template";;
        copy_template DEFAULT_DEPLOYMENT_FILE_PATH).

Definition _create_lock_file : io unit :=
  present ← Os.exists_ LOCK_FILE_PATH;
  if present : bool then mret tt
  else Os.write_text LOCK_FILE_PATH "{}".

Definition init_content : dict := {[ "environments" := JObj ∅ ]}.

Definition initialize : io unit :=
  _create_dir;;
  _create_deployment_file;;
  _create_lock_file;;
  write_json init_content INFO_FILE_PATH.

End WithTemplate.

Definition update (content : dict) : io unit :=
  update_json content INFO_FILE_PATH.

Definition get (item : string) : io json :=
  present ← Os.exists_ INFO_FILE_PATH;
  if present : bool
  then (content ← read_json INFO_FILE_PATH; dict_get content item)
  else raise ProjectNotConfigured.

End InfoFile.

(** ** The remote side

    Objects of the interpreter that are shared by reference live in [heap];
    the workspace API and the tracking server answer the [n]-th call made to
    them through [respond]. *)

Definition loc : Type := nat.

Inductive object : Type :=
  | ApiClientObj (url : string) (default_headers : loc)
  | DictObj (items : gmap string string).

Inductive call : Type :=
  | Query (method : string) (url : string) (data : json)
  | DbfsGetStatus (path : string)
  | LogArtifact (local_path : string) (artifact_path : string).

Inductive net_event : Type :=
  | Called (c : call)
  | Slept (seconds : Q)
  | Printed (message : string).

Record remote : Type := Remote {
  heap : gmap loc object;
  respond : nat -> call -> result json;
  calls : nat;
  trace : list net_event
}.

Abbreviation net := (prog remote).

Definition perform (c : call) : net json := fun s =>
  (respond s (calls s) c,
   Remote (heap s) (respond s) (S (calls s)) (trace s ++ [Called c])).

(** [time.sleep(seconds)] *)
Definition sleep (seconds : Q) : net unit := fun s =>
  (Ok tt, Remote (heap s) (respond s) (calls s) (trace s ++ [Slept seconds])).

Definition net_echo (message : string) : net unit := fun s =>
  (Ok tt, Remote (heap s) (respond s) (calls s) (trace s ++ [Printed message])).

Definition set_heap (h : gmap loc object) : net unit := fun s =>
  (Ok tt, Remote h (respond s) (calls s) (trace s)).

Definition get_heap : net (gmap loc object) := fun s => (Ok (heap s), s).

Definition new_loc (h : gmap loc object) : loc := fresh (dom h).

(** [copy.deepcopy] of an [ApiClient]: the client and the dictionary it
    refers to are both copied to new places. *)
Definition deepcopy (client : loc) : net loc :=
  h ← get_heap;
  match h !! client with
  | Some (ApiClientObj url headers) =>
      match h !! headers with
      | Some (DictObj items) =>
          let headers' := new_loc h in
          let h1 := <[headers' := DictObj items]> h in
          let client' := new_loc h1 in
          set_heap (<[client' := ApiClientObj url headers']> h1);;
          mret client'
      | _ => raise AttributeError
      end
  | _ => raise AttributeError
  end.

Definition get_url (client : loc) : net string :=
  h ← get_heap;
  match h !! client with
  | Some (ApiClientObj url _) => mret url
  | _ => raise AttributeError
  end.

(** [client.url = url] *)
Definition set_url (client : loc) (url : string) : net unit :=
  h ← get_heap;
  match h !! client with
  | Some (ApiClientObj _ headers) =>
      set_heap (<[client := ApiClientObj url headers]> h)
  | _ => raise AttributeError
  end.

(** [ApiClient.perform_query] of the client library, as in the releases
    whose client keeps the API version in its [url] (the ones [__init__]
    below is written for): the request goes to the client's [url] followed
    by [path]. *)
Definition perform_query (client : loc) (method path : string) (data : json)
  : net json :=
  url ← get_url client;
  perform (Query method (url +:+ path) data).

(** *** The decorator of the retry package

    [retry(tries, delay, backoff)] with its defaults [exceptions=Exception],
    [max_delay=None] and [jitter=0], for a number of tries that is not
    negative: its loop [while _tries: try: return f() except: ...].  The
    result is [None] when the loop is never entered. *)
Fixpoint retry {A : Type} (tries : nat) (delay backoff : Q) (f : net A)
  : net (option A) :=
  match tries with
  | O => mret None
  | S remaining => fun s =>
      match f s with
      | (Ok a, s') => (Ok (Some a), s')
      | (Raise e, s') =>
          match remaining with
          | O => (Raise e, s')
          | S _ => (sleep delay;; retry remaining (delay * backoff) backoff f) s'
          end
      end
  end.

Module ApiV1Client.

Record t : Type := Make { v1_client : loc }.

Definition __init__ (api_client : loc) : net t :=
  v1_client ← deepcopy api_client;
  url ← get_url v1_client;
  set_url v1_client (Str.replace "/api/2.0" "/api/1.2" url);;
  mret (Make v1_client).

Definition get_command_status (self : t) (payload : json) : net json :=
  perform_query (v1_client self) "GET" "/commands/status" payload.

Definition cancel_command (self : t) (payload : json) : net unit :=
  perform_query (v1_client self) "POST" "/commands/cancel" payload;;
  mret tt.

Definition execute_command (self : t) (payload : json) : net json :=
  perform_query (v1_client self) "POST" "/commands/execute" payload.

(** [None] is returned as [JNull]. *)
Definition get_context_status (self : t) (payload : json) : net json :=
  try_except (perform_query (v1_client self) "GET" "/contexts/status" payload)
    HTTPError (mret JNull).

Definition create_context (self : t) (payload : json) : net (option json) :=
  retry 10 5 5
    (perform_query (v1_client self) "POST" "/contexts/create" payload).

End ApiV1Client.

Module FileUploader.

(** [str(PurePosixPath(p).parent)] for a relative path in normal form *)
Definition posix_parent (p : string) : string :=
  let d := Os.dirname p in
  if decide (d = EmptyString) then "." else d.

(** A bare [except:] catches whatever is raised. *)
Definition file_exists (file_path : string) : net bool := fun s =>
  match perform (DbfsGetStatus file_path) s with
  | (Ok _, s') => (Ok true, s')
  | (Raise _, s') => (Ok false, s')
  end.

Definition upload_file_body (file_path : string) : net unit :=
  net_echo ("Deploying file: " +:+ file_path);;
  perform (LogArtifact file_path (posix_parent file_path));;
  mret tt.

Definition upload_file (file_path : string) : net (option unit) :=
  retry 3 1 (3 # 10) (upload_file_body file_path).

End FileUploader.

(** ** Branch resolution *)

(** What [git.Repo(".")] finds. *)
Inductive repository : Type :=
  | NotARepository
  | DetachedHead
  | OnBranch (name : string).

Definition get_current_branch_name (environ : gmap string string)
    (repo : repository) : option string :=
  match environ !! "GITHUB_REF" with
  | Some value =>
      let ref := Str.split "/"%char value in
      Some (List.last ref EmptyString)
  | None =>
      match repo with
      | NotARepository => None
      | DetachedHead => None
      | OnBranch name => Some name
      end
  end.

(** ** Command-line tags *)

Definition parse_multiple (multiple_argument : list string)
  : result (gmap string string) :=
  let tags_splitted := map (Str.split "="%char) multiple_argument in
  foldl (fun acc t =>
           match acc with
           | Ok tags_dict =>
               match t with
               | k :: v :: _ => Ok (<[k := v]> tags_dict)
               | _ => Raise IndexError
               end
           | Raise e => Raise e
           end)
        (Ok ∅) tags_splitted.

(** ** The search filter *)

(** ['tags.NAME="%s"' % value] *)
Definition tag_filter (name value : string) : string :=
  "tags." +:+ name +:+ "="
  +:+ String Json.quote (value +:+ String Json.quote EmptyString).

(** [tags] is the dictionary as [tags.items()] lists it.  The branch is
    added [if branch_name:], that is when it is neither [None] nor empty. *)
Definition generate_filter_string (environ : gmap string string)
    (repo : repository) (env : string) (tags : list (string * string))
  : string :=
  let general_filters :=
    [tag_filter "dbx_environment" env;
     tag_filter "dbx_status" "SUCCESS";
     tag_filter "dbx_action_type" "deploy"] in
  let branch_name := get_current_branch_name environ repo in
  let general_filters :=
    match branch_name with
    | Some (String _ _ as name) =>
        general_filters ++ [tag_filter "dbx_branch_name" name]
    | _ => general_filters
    end in
  let tags_filters := map (fun kv => tag_filter kv.1 kv.2) tags in
  let all_filters := general_filters ++ tags_filters in
  String.concat " and " all_filters.

(** * Facts

    ** The JSON codec: what [json.dump] writes, [json.load] reads back *)

Module JsonFacts.
Import Json.

Lemma scan_escape_char (c : ascii) (t : text) :
  scan_string (escape_char c ++ t) = cons_fst c (scan_string t).
Proof.
  destruct c as [[] [] [] [] [] [] [] []];
    match goal with
    | |- context [escape_char ?c] =>
        let v := eval vm_compute in (escape_char c) in
        change (escape_char c) with v
    end; reflexivity.
Qed.

Lemma scan_string_escape (l r : text) :
  scan_string (flat_map escape_char l ++ quote :: r) = Some (l, r).
Proof.
  induction l as [|c l IH]; [reflexivity|].
  change (flat_map escape_char (c :: l)) with (escape_char c ++ flat_map escape_char l).
  now rewrite <- app_assoc, scan_escape_char, IH.
Qed.

Lemma decode_string_encode (s : string) (r : text) :
  decode_string (flat_map escape_char (chars s) ++ quote :: r) = Some (s, r).
Proof.
  unfold decode_string. rewrite scan_string_escape.
  unfold chars. now rewrite string_of_list_ascii_of_string.
Qed.

Lemma scan_uint_chars (d : Decimal.uint) (r : text) :
  no_digit_ahead r -> scan_uint (uint_chars d ++ r) = (d, r).
Proof.
  intros Hr. induction d; cbn; try (rewrite IHd; reflexivity).
  destruct r as [|c r]; [reflexivity|]. cbn in *. unfold is_digit in Hr.
  destruct (digit_of c); [discriminate | reflexivity].
Qed.

Lemma to_uint_no_leading_zero (p : positive) (d : Decimal.uint) :
  Pos.to_uint p <> Decimal.D0 d.
Proof.
  intros E.
  pose proof (DecimalZ.to_of (Decimal.Pos (Pos.to_uint p))) as H.
  cbn in H. unfold Z.of_uint in H. rewrite Unsigned.of_to in H. cbn in H.
  injection H as H. rewrite E in H.
  assert (Decimal.nzhead (Decimal.D0 d) = Decimal.Nil
          \/ Decimal.nzhead (Decimal.D0 d) <> Decimal.Nil) as [Hn|Hn]
    by (destruct (Decimal.nzhead (Decimal.D0 d)); (now left) || (now right)).
  - apply unorm_0 in Hn. rewrite Hn in H. rewrite <- E in H.
    now apply Unsigned.to_uint_nonzero in H.
  - rewrite (unorm_nzhead _ Hn) in H. symmetry in H.
    now apply nzhead_nonzero in H.
Qed.

Lemma scan_nat_to_uint (p : positive) (r : text) :
  no_digit_ahead r ->
  scan_nat (uint_chars (Pos.to_uint p) ++ r) = Some (Pos.to_uint p, r).
Proof.
  intros Hr. pose proof (to_uint_no_leading_zero p) as Hz.
  pose proof (Unsigned.to_uint_nonnil p) as Hnil.
  pose proof (scan_uint_chars (Pos.to_uint p) r Hr) as Hs.
  destruct (Pos.to_uint p) as [|d|d|d|d|d|d|d|d|d|d];
    [ congruence | exfalso; eapply Hz; reflexivity | .. ];
    cbn [uint_chars app] in *; unfold scan_nat;
    match goal with
    | |- context [(N_of_ascii ?c =? 48)%N] =>
        change (N_of_ascii c =? 48)%N with false;
        change (is_digit c) with true
    end; cbv iota; now rewrite Hs.
Qed.

Lemma decode_int_encode (z : Z) (r : text) :
  no_digit_ahead r -> decode_int (encode_int z ++ r) = Some (JInt z, r).
Proof.
  intros Hr. rewrite <- (DecimalZ.of_to z) at 2.
  unfold encode_int. destruct z as [|p|p]; cbn [Z.to_int].
  - reflexivity.
  - pose proof (scan_nat_to_uint p r Hr) as Hs.
    pose proof (to_uint_no_leading_zero p) as Hz.
    pose proof (Unsigned.to_uint_nonnil p) as Hnil.
    destruct (Pos.to_uint p) as [|d|d|d|d|d|d|d|d|d|d];
      [ congruence | exfalso; eapply Hz; reflexivity | .. ];
      cbn [uint_chars app] in *; unfold decode_int;
      match goal with
      | |- context [(N_of_ascii ?c =? 45)%N] =>
          change (N_of_ascii c =? 45)%N with false
      end; cbv iota; now rewrite Hs.
  - change (("-"%char :: uint_chars (Pos.to_uint p)) ++ r)
      with ("-"%char :: uint_chars (Pos.to_uint p) ++ r).
    unfold decode_int. change (N_of_ascii "-" =? 45)%N with true. cbv iota.
    now rewrite scan_nat_to_uint.
Qed.

Lemma decode_number (n : nat) (z : Z) (r : text) :
  decode (S n) (encode_int z ++ r) = decode_int (encode_int z ++ r).
Proof.
  unfold encode_int. destruct z as [|p|p]; cbn [Z.to_int]; try reflexivity.
  pose proof (to_uint_no_leading_zero p) as Hz.
  pose proof (Unsigned.to_uint_nonnil p) as Hnil.
  destruct (Pos.to_uint p) as [|d|d|d|d|d|d|d|d|d|d];
    [ congruence | exfalso; eapply Hz; reflexivity | .. ]; reflexivity.
Qed.

Lemma skip_ws_newline_indent (k : nat) (r : text) :
  skip_ws (newline_indent k ++ r) = skip_ws r.
Proof.
  unfold newline_indent. cbn [app skip_ws]. change (is_ws "010") with true.
  cbv iota. induction (4 * k)%nat as [|m IH]; [reflexivity|].
  cbn [repeat app skip_ws]. change (is_ws " ") with true. exact IH.
Qed.

Lemma jsize_obj (m : dict) :
  jsize (JObj m) = S (S (sum_sizes (map snd (map_to_list m)))).
Proof.
  cbn [jsize]. rewrite map_fold_foldr. do 2 f_equal.
  unfold sum_sizes. induction (map_to_list m) as [|[k v] l IH]; cbn; congruence.
Qed.

Lemma sum_sizes_elem (x : json) (l : list json) :
  x ∈ l -> jsize x <= sum_sizes l.
Proof.
  unfold sum_sizes. induction 1; cbn [foldr]; lia.
Qed.

Lemma json_ind' (P : json -> Prop) :
  P JNull -> (forall b, P (JBool b)) -> (forall z, P (JInt z)) ->
  (forall s, P (JStr s)) ->
  (forall l, Forall P l -> P (JArr l)) ->
  (forall m : dict, map_Forall (fun _ => P) m -> P (JObj m)) ->
  forall j, P j.
Proof.
  intros Hn Hb Hz Hs Ha Ho j.
  remember (jsize j) as n eqn:En. revert j En.
  induction n as [n IH] using lt_wf_ind. intros j ->.
  destruct j as [| | | |l|m]; auto.
  - apply Ha, Forall_forall. intros x Hx. apply (IH (jsize x)); [|reflexivity].
    apply sum_sizes_elem in Hx. cbn [jsize]. fold (sum_sizes l). lia.
  - apply Ho. intros k v Hkv. apply (IH (jsize v)); [|reflexivity].
    rewrite jsize_obj.
    assert (v ∈ map snd (map_to_list m)) as Hv.
    { apply list_elem_of_fmap. exists (k, v). split; [reflexivity|].
      now apply elem_of_map_to_list. }
    apply sum_sizes_elem in Hv. lia.
Qed.

Lemma encode_obj (level : nat) (m : dict) :
  encode level (JObj m)
  = block "{"%char "}"%char level (map (entry level) (map_to_list m)).
Proof.
  cbn [encode]. rewrite map_fold_foldr. f_equal.
  induction (map_to_list m) as [|[k v] l IH]; [reflexivity|].
  cbn [foldr map]. rewrite IH. reflexivity.
Qed.

Lemma jsize_pos (j : json) : 1 <= jsize j.
Proof. destruct j; cbn; lia. Qed.

Lemma encode_head (level : nat) (j : json) :
  exists c t, encode level j = c :: t /\ is_ws c = false
              /\ (N_of_ascii c =? 93)%N = false.
Proof.
  destruct j as [|[]|z|s|l|m].
  1-3, 5: eexists _, _; split; [reflexivity | split; reflexivity].
  - cbn [encode]. unfold encode_int.
    destruct z as [|p|p]; cbn [Z.to_int];
      try (eexists _, _; split; [reflexivity | split; reflexivity]).
    pose proof (Unsigned.to_uint_nonnil p) as Hnil.
    destruct (Pos.to_uint p); [congruence|..];
      eexists _, _; split; try reflexivity; split; reflexivity.
  - cbn [encode]. destruct (map (encode (S level)) l);
      eexists _, _; split; try reflexivity; split; reflexivity.
  - rewrite encode_obj. destruct (map (entry level) (map_to_list m));
      eexists _, _; split; try reflexivity; split; reflexivity.
Qed.

Lemma skip_ws_encode (level : nat) (j : json) (r : text) :
  skip_ws (encode level j ++ r) = encode level j ++ r.
Proof.
  destruct (encode_head level j) as (c & t & -> & Hws & _).
  cbn [app skip_ws]. now rewrite Hws.
Qed.

Lemma join_cons_app (sep x : text) (rest : list text) (t : text) :
  exists t', join sep (x :: rest) ++ t = x ++ t'.
Proof.
  destruct rest as [|y rest]; cbn [join]; [now exists t|].
  rewrite <- app_assoc. now eexists.
Qed.

Lemma join_cons2 (sep x y : text) (rest : list text) :
  join sep (x :: y :: rest) = x ++ sep ++ join sep (y :: rest).
Proof. reflexivity. Qed.

Lemma decode_items_join (level : nat) (l : list json) (r : text) :
  l <> [] -> Forall decodes l ->
  forall fuel, S (sum_sizes l) <= fuel ->
  decode_items fuel
    (join (","%char :: newline_indent (S level)) (map (encode (S level)) l)
       ++ newline_indent level ++ "]"%char :: r) = Some (l, r).
Proof.
  induction l as [|x l IH]; [congruence|].
  intros _ HF fuel Hfuel. destruct fuel as [|n]; [lia|].
  apply Forall_cons in HF as [Hx HF]. unfold sum_sizes in Hfuel.
  cbn [foldr] in Hfuel. fold (sum_sizes l) in Hfuel.
  pose proof (jsize_pos x) as Hpos.
  cbn [decode_items]. destruct l as [|y l'].
  - cbn [map join]. rewrite Hx; [|cbn in *; lia|reflexivity].
    rewrite skip_ws_newline_indent. reflexivity.
  - cbn [map]. rewrite join_cons2, <- !app_assoc.
    rewrite Hx; [|lia|reflexivity].
    cbn [app skip_ws]. change (is_ws ",") with false. cbv iota.
    change (N_of_ascii "," =? 44)%N with true. cbv iota.
    rewrite skip_ws_newline_indent.
    destruct (join_cons_app (","%char :: newline_indent (S level))
                (encode (S level) y) (map (encode (S level)) l')
                (newline_indent level ++ "]"%char :: r)) as [t' Ht'].
    rewrite Ht', skip_ws_encode, <- Ht'.
    change (encode (S level) y :: map (encode (S level)) l')
      with (map (encode (S level)) (y :: l')).
    rewrite IH; [reflexivity|congruence|exact HF|lia].
Qed.

Lemma entry_unfold (level : nat) (k : string) (v : json) (t : text) :
  entry level (k, v) ++ t
  = quote :: flat_map escape_char (chars k)
      ++ quote :: ":"%char :: " "%char :: encode (S level) v ++ t.
Proof.
  unfold entry, encode_string. cbn [fst snd chars list_ascii_of_string app].
  now rewrite <- !app_assoc.
Qed.

Lemma decode_members_join (level : nat) (kvs : list (string * json)) (r : text) :
  kvs <> [] -> Forall (fun kv => decodes kv.2) kvs ->
  forall fuel, S (sum_sizes (map snd kvs)) <= fuel ->
  decode_members fuel
    (join (","%char :: newline_indent (S level)) (map (entry level) kvs)
       ++ newline_indent level ++ "}"%char :: r) = Some (kvs, r).
Proof.
  induction kvs as [|[k v] l IH]; [congruence|].
  intros _ HF fuel Hfuel. destruct fuel as [|n]; [lia|].
  apply Forall_cons in HF as [Hx HF]. cbn [snd] in Hx.
  unfold sum_sizes in Hfuel. cbn [foldr map snd] in Hfuel.
  fold (sum_sizes (map snd l)) in Hfuel.
  pose proof (jsize_pos v) as Hpos.
  destruct l as [|[k' v'] l'].
  - cbn [map join]. rewrite entry_unfold. cbn [decode_members].
    change (N_of_ascii quote =? 34)%N with true. cbv iota.
    rewrite decode_string_encode. cbn [skip_ws].
    change (is_ws ":") with false. cbv iota.
    change (N_of_ascii ":" =? 58)%N with true. cbv iota.
    cbn [skip_ws]. change (is_ws " ") with true. cbv iota.
    rewrite skip_ws_encode, Hx; [|cbn in *; lia|reflexivity].
    rewrite skip_ws_newline_indent. reflexivity.
  - cbn [map]. rewrite join_cons2, <- !app_assoc, entry_unfold.
    cbn [decode_members].
    change (N_of_ascii quote =? 34)%N with true. cbv iota.
    rewrite decode_string_encode. cbn [skip_ws].
    change (is_ws ":") with false. cbv iota.
    change (N_of_ascii ":" =? 58)%N with true. cbv iota.
    cbn [skip_ws]. change (is_ws " ") with true. cbv iota.
    rewrite skip_ws_encode, Hx; [|lia|reflexivity].
    cbn [app skip_ws]. change (is_ws ",") with false. cbv iota.
    change (N_of_ascii "," =? 44)%N with true. cbv iota.
    rewrite skip_ws_newline_indent.
    destruct (join_cons_app (","%char :: newline_indent (S level))
                (entry level (k', v')) (map (entry level) l')
                (newline_indent level ++ "}"%char :: r)) as [t' Ht'].
    rewrite Ht', entry_unfold. cbn [skip_ws].
    change (is_ws quote) with false. cbv iota.
    rewrite <- entry_unfold, <- Ht'.
    change (entry level (k', v') :: map (entry level) l')
      with (map (entry level) ((k', v') :: l')).
    rewrite IH; [reflexivity|congruence|exact HF|lia].
Qed.

Lemma dict_of_pairs_to_list (m : dict) : dict_of_pairs (map_to_list m) = m.
Proof.
  unfold dict_of_pairs. symmetry. apply list_to_map_flip.
  symmetry. apply reverse_Permutation.
Qed.

Lemma decode_encode (j : json) : decodes j.
Proof.
  induction j as [|b|z|s|l IH|m IH] using json_ind';
    intros level r fuel Hfuel Hr; (destruct fuel as [|n]; [cbn in Hfuel; lia|]).
  - reflexivity.
  - destruct b; reflexivity.
  - cbn [encode]. rewrite decode_number. now apply decode_int_encode.
  - cbn [encode]. unfold encode_string. cbn [app decode].
    change (N_of_ascii quote =? 34)%N with true. cbv iota.
    rewrite <- app_assoc. cbn [app]. now rewrite decode_string_encode.
  - cbn [encode]. cbn [jsize] in Hfuel. fold (sum_sizes l) in Hfuel.
    destruct l as [|x l]; [reflexivity|].
    unfold block. cbn [map]. cbn [app].
    rewrite <- !app_assoc. cbn [app decode].
    change (N_of_ascii "[" =? 34)%N with false.
    change (N_of_ascii "[" =? 123)%N with false.
    change (N_of_ascii "[" =? 91)%N with true. cbv iota.
    rewrite skip_ws_newline_indent.
    change (encode (S level) x :: map (encode (S level)) l)
      with (map (encode (S level)) (x :: l)).
    pose proof (decode_items_join level (x :: l) r) as Hit.
    destruct (join_cons_app (","%char :: newline_indent (S level))
                (encode (S level) x) (map (encode (S level)) l)
                (newline_indent level ++ "]"%char :: r)) as [t' Ht'].
    cbn [map]. rewrite Ht'.
    destruct (encode_head (S level) x) as (c & t & Ec & Hws & Hc).
    rewrite Ec. cbn [app skip_ws]. rewrite Hws, Hc.
    change (c :: t ++ t') with ((c :: t) ++ t'). rewrite <- Ec, <- Ht'.
    rewrite Hit; [reflexivity|congruence|exact IH|lia].
  - rewrite encode_obj. rewrite jsize_obj in Hfuel.
    pose proof (dict_of_pairs_to_list m) as Hm.
    apply map_Forall_to_list in IH.
    destruct (map_to_list m) as [|[k v] l] eqn:El.
    { cbn [map block app decode]. cbn in Hm. now rewrite <- Hm. }
    unfold block. cbn [map]. cbn [app].
    rewrite <- !app_assoc. cbn [app decode].
    change (N_of_ascii "{" =? 34)%N with false.
    change (N_of_ascii "{" =? 123)%N with true. cbv iota.
    rewrite skip_ws_newline_indent.
    pose proof (decode_members_join level ((k, v) :: l) r) as Hit.
    cbn [map] in Hit.
    destruct (join_cons_app (","%char :: newline_indent (S level))
                (entry level (k, v)) (map (entry level) l)
                (newline_indent level ++ "}"%char :: r)) as [t' Ht'].
    rewrite Ht', entry_unfold. cbn [skip_ws].
    change (is_ws quote) with false. cbv iota.
    change (N_of_ascii quote =? 125)%N with false. cbv iota.
    rewrite <- entry_unfold, <- Ht'.
    rewrite Hit; [now rewrite Hm|congruence| |cbn [map snd] in *; lia].
    eapply Forall_impl; [exact IH|]. intros [k0 v0] H0. exact H0.
Qed.

Lemma join_length (sep : text) (items : list text) :
  sum_list (map length items) <= length (join sep items).
Proof.
  induction items as [|x rest IH]; [cbn; lia|].
  destruct rest as [|y rest]; [cbn; lia|].
  rewrite join_cons2, !length_app.
  change (sum_list (map length (x :: y :: rest)))
    with (length x + sum_list (map length (y :: rest))).
  lia.
Qed.

Lemma block_length (o c : ascii) (level : nat) (items : list text) :
  2 + sum_list (map length items) <= length (block o c level items).
Proof.
  pose proof (join_length (","%char :: newline_indent (S level)) items) as H.
  unfold block. destruct items as [|x rest]; [cbn; lia|].
  cbn [length]. rewrite !length_app. cbn [length]. lia.
Qed.

Lemma jsize_le_length (j : json) : forall level, jsize j <= length (encode level j).
Proof.
  induction j as [|b|z|s|l IH|m IH] using json_ind'; intros level.
  - cbn. lia.
  - destruct b; cbn; lia.
  - destruct (encode_head level (JInt z)) as (c & t & -> & _). cbn. lia.
  - cbn [encode jsize]. unfold encode_string. cbn [length]. lia.
  - cbn [encode jsize]. fold (sum_sizes l).
    etransitivity; [|apply block_length].
    apply le_n_S, le_n_S. unfold sum_sizes.
    induction IH as [|x l Hx _ IHl]; cbn [foldr map sum_list]; [lia|].
    specialize (Hx (S level)).
    match goal with |- context [id ?a + _] => change (id a) with a end. lia.
  - rewrite encode_obj, jsize_obj.
    etransitivity; [|apply block_length].
    apply le_n_S, le_n_S. apply map_Forall_to_list in IH.
    unfold sum_sizes.
    induction IH as [|[k v] l Hx _ IHl]; cbn [foldr map sum_list snd]; [lia|].
    specialize (Hx (S level)). cbn [snd] in Hx.
    match goal with |- context [id ?a + _] => change (id a) with a end.
    unfold entry at 1. cbn [fst snd]. rewrite !length_app. lia.
Qed.

Lemma loads_dumps (j : json) : loads (dumps j) = Some j.
Proof.
  unfold loads, dumps, chars.
  rewrite list_ascii_of_string_of_list_ascii.
  rewrite <- (app_nil_r (encode 0 j)) at 2.
  rewrite skip_ws_encode, decode_encode; [reflexivity| |exact I].
  pose proof (jsize_le_length j 0). lia.
Qed.

End JsonFacts.

(** ** Paths *)

Module OsFacts.
Import Os.

Lemma upto_last_slash_length (s : list ascii) :
  length (upto_last_slash s) <= length s.
Proof.
  induction s as [|c r IH]; cbn [upto_last_slash length]; [lia|].
  destruct (upto_last_slash r); [destruct (decide (c = slash))|]; cbn [length] in *; lia.
Qed.

Lemma upto_last_slash_shorter (s : list ascii) :
  s <> [] -> last_is_slash s = false ->
  length (upto_last_slash s) < length s.
Proof.
  induction s as [|c r IH]; [congruence|]. intros _ Hl.
  cbn [upto_last_slash length]. destruct r as [|c' r'].
  - cbn in Hl. apply bool_decide_eq_false in Hl.
    cbn. destruct (decide (c = slash)); [contradiction|cbn; lia].
  - cbn [last_is_slash] in Hl. specialize (IH ltac:(congruence) Hl).
    destruct (upto_last_slash (c' :: r'));
      [destruct (decide (c = slash))|]; cbn [length] in *; lia.
Qed.

Lemma rstrip_slashes_length (s : list ascii) :
  length (rstrip_slashes s) <= length s.
Proof.
  induction s as [|c r IH]; cbn [rstrip_slashes length]; [lia|].
  destruct (rstrip_slashes r); [destruct (decide (c = slash))|]; cbn [length] in *; lia.
Qed.

Lemma dirname_neq (p : string) :
  p <> EmptyString -> ends_with_slash p = false -> dirname p <> p.
Proof.
  intros Hne Hs E. unfold ends_with_slash in Hs.
  assert (list_ascii_of_string p <> []) as Hne'.
  { intros E'. apply Hne. rewrite <- (string_of_list_ascii_of_string p), E'.
    reflexivity. }
  pose proof (upto_last_slash_shorter _ Hne' Hs) as Hlt.
  pose proof (rstrip_slashes_length (upto_last_slash (list_ascii_of_string p))) as Hr.
  apply (f_equal list_ascii_of_string) in E. unfold dirname in E.
  rewrite list_ascii_of_string_of_list_ascii in E.
  apply (f_equal (@length ascii)) in E.
  destruct (all_slashes (upto_last_slash (list_ascii_of_string p))); lia.
Qed.

(** After a file has been written at a writable path, the path resolves to it. *)
Lemma resolve_written (files : gmap string node) (p content : string) :
  writable files p = true ->
  resolve (<[p := File content]> files) p = Ok (Some (File content)).
Proof.
  unfold writable, resolve, parent. intros H.
  destruct (decide (p = EmptyString)) as [|Hne]; [discriminate|].
  destruct (all_slashes (list_ascii_of_string (dirname p))) eqn:Ha.
  - destruct (ends_with_slash p); [discriminate|].
    now rewrite lookup_insert_eq.
  - destruct (files !! dirname p) as [[c|]|] eqn:Hd; try discriminate.
    destruct (ends_with_slash p) eqn:Hs; [discriminate|].
    rewrite lookup_insert_ne by (apply not_eq_sym, dirname_neq; assumption).
    rewrite Hd. now rewrite lookup_insert_eq.
Qed.
End OsFacts.

(** ** Running a computation *)

Lemma bind_ok {S A B : Type} (m : prog S A) (k : A -> prog S B) (s s' : S) (a : A) :
  m s = (Ok a, s') -> (m ≫= k) s = k a s'.
Proof. unfold mbind, prog_bind. now intros ->. Qed.

Lemma bind_raise {S A B : Type} (m : prog S A) (k : A -> prog S B) (s s' : S)
    (e : exn) :
  m s = (Raise e, s') -> (m ≫= k) s = (Raise e, s').
Proof. unfold mbind, prog_bind. now intros ->. Qed.

Lemma try_ok {S A : Type} (m h : prog S A) (c : exn) (s s' : S) (a : A) :
  m s = (Ok a, s') -> try_except m c h s = (Ok a, s').
Proof. unfold try_except. now intros ->. Qed.

Lemma try_caught {S A : Type} (m h : prog S A) (c : exn) (s s' : S) :
  m s = (Raise c, s') -> try_except m c h s = h s'.
Proof. unfold try_except. intros ->. now rewrite decide_True. Qed.

Lemma try_passed {S A : Type} (m h : prog S A) (c e : exn) (s s' : S) :
  m s = (Raise e, s') -> e <> c -> try_except m c h s = (Raise e, s').
Proof. unfold try_except. intros -> H. now rewrite decide_False. Qed.

(** ** The JSON store *)

Module StoreFacts.
Import Os OsFacts.

Ltac run := unfold mbind, prog_bind, mret, prog_ret, raise in *.

Lemma read_json_file (p text : string) (j : json) (w : world) :
  resolve (fs w) p = Ok (Some (File text)) ->
  Json.loads text = Some j ->
  read_json p w = (Ok j, w).
Proof.
  intros Hr Hl. unfold read_json, read_text, json_load. run.
  now rewrite Hr, Hl.
Qed.

Lemma write_json_ok (M : dict) (p : string) (w : world) :
  writable (fs w) p = true ->
  write_json M p w
  = (Ok tt, World (<[p := File (Json.dumps (JObj M))]> (fs w))
                  (log w ++ [Wrote p (Json.dumps (JObj M))])).
Proof.
  unfold writable, write_json, write_text. intros H.
  destruct (resolve (fs w) p) as [[[c|]|]|e]; done.
Qed.

Lemma write_json_refused (M : dict) (p : string) (w : world) :
  writable (fs w) p = false ->
  exists e, write_json M p w = (Raise e, w).
Proof.
  unfold writable, write_json, write_text. intros H.
  destruct (resolve (fs w) p) as [[[c|]|]|e]; try done; eauto.
Qed.

Lemma read_back (M : dict) (P : string) (files : gmap string node)
    (l : list event) :
  writable files P = true ->
  let w' := World (<[P := File (Json.dumps (JObj M))]> files) l in
  read_json P w' = (Ok (JObj M), w').
Proof.
  intros Hw w'. apply read_json_file with (text := Json.dumps (JObj M)).
  - now apply resolve_written.
  - apply JsonFacts.loads_dumps.
Qed.

(** C3. For every map [M] and every path [P] at which a file can be written,
    [write_json M P] followed by [read_json P] yields [M] again: the text
    that [json.dump] leaves in the file is decoded by [json.load] to the
    same document. *)
Theorem write_json_read_json (M : dict) (P : string) (w : world) :
  writable (fs w) P = true ->
  exists w', write_json M P w = (Ok tt, w')
             /\ read_json P w' = (Ok (JObj M), w').
Proof.
  intros Hw. eexists. split; [apply write_json_ok, Hw|].
  now apply read_back.
Qed.

Lemma write_json_read_json_witness :
  exists w', write_json {[ "context_id" := JStr "1" ]} "lock.json" (World ∅ [])
             = (Ok tt, w')
             /\ read_json "lock.json" w'
                = (Ok (JObj {[ "context_id" := JStr "1" ]}), w').
Proof.
  apply (write_json_read_json {[ "context_id" := JStr "1" ]} "lock.json"
           (World ∅ [])).
  vm_compute. reflexivity.
Defined.

Lemma writable_of_file (files : gmap string node) (p text : string) :
  resolve files p = Ok (Some (File text)) -> writable files p = true.
Proof. unfold writable. now intros ->. Qed.

Lemma update_json_file (M C : dict) (P text : string) (w : world) :
  resolve (fs w) P = Ok (Some (File text)) ->
  Json.loads text = Some (JObj C) ->
  update_json M P w
  = (Ok tt, World (<[P := File (Json.dumps (JObj (M ∪ C)))]> (fs w))
                  (log w ++ [Wrote P (Json.dumps (JObj (M ∪ C)))])).
Proof.
  intros Hr Hl. unfold update_json.
  erewrite bind_ok
    by (eapply try_ok, read_json_file; eassumption).
  erewrite bind_ok by reflexivity.
  apply write_json_ok. eapply writable_of_file, Hr.
Qed.

(** C1. When the file at [P] holds a map [C], [update_json M P] succeeds and
    leaves in the file the shallow merge of [C] and [M]: a key absent from
    [M] keeps its value from [C], a key of [M] takes the value [M] gives
    it, whatever [C] held there. *)
Theorem update_json_shallow_merge (M C : dict) (P text : string) (w : world) :
  resolve (fs w) P = Ok (Some (File text)) ->
  Json.loads text = Some (JObj C) ->
  exists (w' : world) (D : dict),
    update_json M P w = (Ok tt, w')
    /\ fs w' = <[P := File (Json.dumps (JObj D))]> (fs w)
    /\ read_json P w' = (Ok (JObj D), w')
    /\ (forall k, M !! k = None -> D !! k = C !! k)
    /\ (forall k v, M !! k = Some v -> D !! k = Some v).
Proof.
  intros Hr Hl. eexists. exists (M ∪ C). repeat split.
  - exact (update_json_file M C P text w Hr Hl).
  - reflexivity.
  - apply read_back. eapply writable_of_file, Hr.
  - intros k Hk. now apply lookup_union_r.
  - intros k v Hk. now apply lookup_union_Some_l.
Qed.

Lemma update_json_shallow_merge_witness :
  exists (w' : world) (D : dict),
    update_json {[ "y" := JInt 3 ]} "a.json"
      (World {[ "a.json" := File (Json.dumps
                  (JObj {[ "x" := JInt 1; "y" := JInt 2 ]})) ]} [])
    = (Ok tt, w')
    /\ fs w' = <[ "a.json" := File (Json.dumps (JObj D)) ]>
                 {[ "a.json" := File (Json.dumps
                      (JObj {[ "x" := JInt 1; "y" := JInt 2 ]})) ]}
    /\ read_json "a.json" w' = (Ok (JObj D), w')
    /\ (forall k, ({[ "y" := JInt 3 ]} : dict) !! k = None ->
                  D !! k = ({[ "x" := JInt 1; "y" := JInt 2 ]} : dict) !! k)
    /\ (forall k v, ({[ "y" := JInt 3 ]} : dict) !! k = Some v ->
                    D !! k = Some v).
Proof.
  refine (update_json_shallow_merge {[ "y" := JInt 3 ]}
           {[ "x" := JInt 1; "y" := JInt 2 ]} "a.json"
           (Json.dumps (JObj {[ "x" := JInt 1; "y" := JInt 2 ]}))
           (World {[ "a.json" := File (Json.dumps
                       (JObj {[ "x" := JInt 1; "y" := JInt 2 ]})) ]} []) _ _).
  - vm_compute. reflexivity.
  - vm_compute. reflexivity.
Defined.

(** C2, as the code has it.  When no file exists at [P], [update_json M P]
    and [write_json M P] are the same computation: the same file content
    when the write goes through, the same error when it does not.  The
    [FileNotFoundError] of the read is absorbed, the one of the write is
    not; with the directory of [P] in place and nothing at [P] the update
    succeeds. *)
Theorem update_json_missing_file (M : dict) (P : string) (w : world) :
  (forall text, resolve (fs w) P <> Ok (Some (File text))) ->
  update_json M P w = write_json M P w
  /\ (resolve (fs w) P = Ok None ->
      update_json M P w
      = (Ok tt, World (<[P := File (Json.dumps (JObj M))]> (fs w))
                      (log w ++ [Wrote P (Json.dumps (JObj M))]))).
Proof.
  intros Hno.
  assert (update_json M P w = write_json M P w) as E.
  { unfold update_json.
    destruct (resolve (fs w) P) as [[[c|]|]|e] eqn:Hr.
    - now destruct (Hno c).
    - assert (read_json P w = (Raise IsADirectoryError, w)) as Hrd.
      { unfold read_json. apply bind_raise. unfold read_text. now rewrite Hr. }
      erewrite bind_raise by (eapply try_passed; [exact Hrd|discriminate]).
      unfold write_json, write_text. now rewrite Hr.
    - assert (read_json P w = (Raise FileNotFoundError, w)) as Hrd.
      { unfold read_json. apply bind_raise. unfold read_text. now rewrite Hr. }
      erewrite bind_ok by (eapply try_caught; exact Hrd).
      erewrite bind_ok by reflexivity.
      now rewrite (right_id_L ∅ (∪) M).
    - assert (read_json P w = (Raise e, w)) as Hrd.
      { unfold read_json. apply bind_raise. unfold read_text. now rewrite Hr. }
      destruct (decide (e = FileNotFoundError)) as [->|Hne].
      + erewrite bind_ok by (eapply try_caught; exact Hrd).
        erewrite bind_ok by reflexivity.
        now rewrite (right_id_L ∅ (∪) M).
      + erewrite bind_raise by (eapply try_passed; [exact Hrd|exact Hne]).
        unfold write_json, write_text. now rewrite Hr. }
  split; [exact E|]. intros Hr. rewrite E. apply write_json_ok.
  unfold writable. now rewrite Hr.
Qed.

Lemma update_json_missing_file_witness :
  update_json {[ "context_id" := JStr "1" ]} "lock.json" (World ∅ [])
  = write_json {[ "context_id" := JStr "1" ]} "lock.json" (World ∅ [])
  /\ (resolve ∅ "lock.json" = Ok None ->
      update_json {[ "context_id" := JStr "1" ]} "lock.json" (World ∅ [])
      = (Ok tt,
         World (<[ "lock.json" := File (Json.dumps
                     (JObj {[ "context_id" := JStr "1" ]})) ]> ∅)
               ([] ++ [Wrote "lock.json" (Json.dumps
                     (JObj {[ "context_id" := JStr "1" ]}))]))).
Proof.
  apply (update_json_missing_file {[ "context_id" := JStr "1" ]} "lock.json"
           (World ∅ [])).
  intros text. vm_compute. discriminate.
Defined.

(** C2 as stated does not hold: no file exists at [.dbx/lock.json] in an
    empty tree, and [update_json] (here as [ContextLockFile.set_context]
    calls it) raises [FileNotFoundError] all the same, from the [open] of
    [write_json], because the directory [.dbx] is missing. *)
Lemma update_json_missing_directory :
  (forall text, resolve ∅ LOCK_FILE_PATH <> Ok (Some (File text)))
  /\ ContextLockFile.set_context "1" (World ∅ [])
     = (Raise FileNotFoundError, World ∅ [])
  /\ update_json {[ "context_id" := JStr "1" ]} LOCK_FILE_PATH (World ∅ [])
     = (Raise FileNotFoundError, World ∅ []).
Proof.
  split; [intros text; vm_compute; discriminate|].
  split; vm_compute; reflexivity.
Qed.

Lemma read_json_get (p text key : string) (D : dict) (w : world) :
  resolve (fs w) p = Ok (Some (File text)) ->
  Json.loads text = Some (JObj D) ->
  DeploymentFile.get_environment p key w = (Ok (default JNull (D !! key)), w).
Proof.
  intros Hr Hl. unfold DeploymentFile.get_environment.
  erewrite bind_ok by (eapply read_json_file; eassumption). reflexivity.
Qed.

(** C4. With a deployment file that holds a map [D]:
    - for a name that has no entry in [D], [update_environment] raises (the
      [None] that [get] returns has no [update]) and the file is left as it
      was, no entry is created;
    - for a name whose entry is a map [blob], it succeeds, and afterwards the
      file holds [D] with the entry of that name replaced by the shallow
      merge of [blob] and [content], which is what [get_environment] then
      returns: keys of [content] take the value [content] gives them, the
      other keys keep their value from [blob]. *)
Theorem update_environment_merges (path name text : string) (D content : dict)
    (w : world) :
  resolve (fs w) path = Ok (Some (File text)) ->
  Json.loads text = Some (JObj D) ->
  (D !! name = None ->
   DeploymentFile.update_environment path name content w
   = (Raise AttributeError, w))
  /\ (forall blob : dict, D !! name = Some (JObj blob) ->
      exists (w' : world) (merged : dict),
        DeploymentFile.update_environment path name content w = (Ok tt, w')
        /\ read_json path w' = (Ok (JObj (<[name := JObj merged]> D)), w')
        /\ DeploymentFile.get_environment path name w' = (Ok (JObj merged), w')
        /\ (forall k, content !! k = None -> merged !! k = blob !! k)
        /\ (forall k v, content !! k = Some v -> merged !! k = Some v)).
Proof.
  intros Hr Hl. split.
  - intros Hn. unfold DeploymentFile.update_environment.
    erewrite bind_ok by (eapply read_json_get; eassumption).
    rewrite Hn. reflexivity.
  - intros blob Hb.
    pose proof (update_json_file {[ name := JObj (content ∪ blob) ]}
                  D path text w Hr Hl) as Hu.
    rewrite <- insert_union_singleton_l in Hu.
    pose proof (read_back (<[name := JObj (content ∪ blob)]> D) path (fs w)
                  (log w ++ [Wrote path (Json.dumps
                     (JObj (<[name := JObj (content ∪ blob)]> D)))])
                  (writable_of_file _ _ _ Hr)) as Hrd.
    cbv zeta in Hrd.
    eexists. exists (content ∪ blob). repeat split.
    + unfold DeploymentFile.update_environment.
      erewrite bind_ok by (eapply read_json_get; eassumption).
      rewrite Hb. cbn [default]. erewrite bind_ok by reflexivity. exact Hu.
    + exact Hrd.
    + unfold DeploymentFile.get_environment.
      erewrite bind_ok by exact Hrd. unfold dict_get.
      now rewrite lookup_insert_eq.
    + intros k Hk'. now apply lookup_union_r.
    + intros k v Hk'. now apply lookup_union_Some_l.
Qed.

Lemma update_environment_merges_witness :
  let D : dict := {[ "dev" := JObj {[ "a" := JInt 1 ]} ]} in
  let content : dict := {[ "b" := JInt 2 ]} in
  let path := DEFAULT_DEPLOYMENT_FILE_PATH in
  let w := World {[ "conf" := Dir; path := File (Json.dumps (JObj D)) ]} [] in
  (D !! "dev" = None ->
   DeploymentFile.update_environment path "dev" content w
   = (Raise AttributeError, w))
  /\ (forall blob : dict, D !! "dev" = Some (JObj blob) ->
      exists (w' : world) (merged : dict),
        DeploymentFile.update_environment path "dev" content w = (Ok tt, w')
        /\ read_json path w' = (Ok (JObj (<[ "dev" := JObj merged ]> D)), w')
        /\ DeploymentFile.get_environment path "dev" w' = (Ok (JObj merged), w')
        /\ (forall k, content !! k = None -> merged !! k = blob !! k)
        /\ (forall k v, content !! k = Some v -> merged !! k = Some v)).
Proof.
  intros D content path w.
  refine (update_environment_merges path "dev" (Json.dumps (JObj D)) D content
            w _ _).
  - vm_compute. reflexivity.
  - vm_compute. reflexivity.
Defined.
End StoreFacts.

(** ** InfoFile.initialize *)

Module InfoFileFacts.
Import Os InfoFile.

Lemma resolve_top (files : gmap string node) (p : string) :
  p <> EmptyString ->
  all_slashes (list_ascii_of_string (dirname p)) = true ->
  ends_with_slash p = false ->
  resolve files p = Ok (files !! p).
Proof.
  intros Hp Hd Hs. unfold resolve, parent.
  rewrite decide_False by exact Hp. now rewrite Hd, Hs.
Qed.

Lemma resolve_under (files : gmap string node) (p : string) :
  p <> EmptyString ->
  all_slashes (list_ascii_of_string (dirname p)) = false ->
  ends_with_slash p = false ->
  resolve files p
  = match files !! dirname p with
    | None => Raise FileNotFoundError
    | Some (File _) => Raise NotADirectoryError
    | Some Dir => Ok (files !! p)
    end.
Proof.
  intros Hp Hd Hs. unfold resolve, parent.
  rewrite decide_False by exact Hp. now rewrite Hd, Hs.
Qed.

Lemma resolve_dbx (files : gmap string node) :
  resolve files ".dbx" = Ok (files !! ".dbx").
Proof. now apply resolve_top. Qed.

Lemma resolve_conf (files : gmap string node) :
  resolve files "conf" = Ok (files !! "conf").
Proof. now apply resolve_top. Qed.

Lemma resolve_deployment (files : gmap string node) :
  resolve files "conf/deployment.json"
  = match files !! "conf" with
    | None => Raise FileNotFoundError
    | Some (File _) => Raise NotADirectoryError
    | Some Dir => Ok (files !! "conf/deployment.json")
    end.
Proof. now rewrite resolve_under. Qed.

Lemma resolve_lock (files : gmap string node) :
  resolve files ".dbx/lock.json"
  = match files !! ".dbx" with
    | None => Raise FileNotFoundError
    | Some (File _) => Raise NotADirectoryError
    | Some Dir => Ok (files !! ".dbx/lock.json")
    end.
Proof. now rewrite resolve_under. Qed.

Lemma resolve_info (files : gmap string node) :
  resolve files ".dbx/project.json"
  = match files !! ".dbx" with
    | None => Raise FileNotFoundError
    | Some (File _) => Raise NotADirectoryError
    | Some Dir => Ok (files !! ".dbx/project.json")
    end.
Proof. now rewrite resolve_under. Qed.

Ltac look :=
  first
    [ rewrite resolve_dbx | rewrite resolve_conf | rewrite resolve_deployment
    | rewrite resolve_lock | rewrite resolve_info
    | rewrite lookup_insert_eq
    | rewrite lookup_insert_ne by discriminate
    | match goal with
      | H : ?m !! ?p = _ |- context [?m !! ?p] => rewrite H
      end ].

Ltac work := repeat (cbn beta iota zeta delta [fs log fst snd]; look).

Ltac prims :=
  unfold dbx_echo, emit, exists_, mkdir, write_text, raise, mbind, prog_bind,
    mret, prog_ret.

Lemma log_same (files : gmap string node) (l : list event) :
  World files l = World files (l ++ []).
Proof. now rewrite app_nil_r. Qed.

Ltac ran :=
  cbn beta iota zeta delta [fs log fst snd];
  first [ reflexivity
        | rewrite <- !app_assoc; reflexivity
        | f_equal; apply log_same ].

Ltac framed :=
  let p := fresh "p" in
  intros p; intros; rewrite ?lookup_insert_ne by congruence; reflexivity.

Ltac in_order :=
  repeat first [ apply sublist_nil | apply sublist_skip | apply sublist_cons ].

(** *** The four steps, one at a time

    Each step changes the tree at its own paths only, logs what it does in
    the order of its statements, and leaves a tree on which running it again
    changes nothing. *)

Lemma create_dir_run (files : gmap string node) (l : list event) :
  exists files' steps,
    _create_dir (World files l) = (Ok tt, World files' (l ++ steps))
    /\ steps `sublist_of`
         [Echo "dbx directory is not present, creating it"; MadeDir ".dbx"]
    /\ (forall p, p <> ".dbx" -> files' !! p = files !! p)
    /\ is_Some (files' !! ".dbx").
Proof.
  destruct (files !! ".dbx") as [n|] eqn:Hd; eexists _, _;
    (split; [unfold _create_dir; change DBX_PATH with ".dbx"; prims; work; ran|]);
    (split; [in_order|]); (split; [framed|]); work; eauto.
Qed.


Lemma create_deployment_file_run (template : option string)
    (files : gmap string node) (l : list event) :
  exists r files' steps,
    _create_deployment_file template (World files l)
    = (r, World files' (l ++ steps))
    /\ steps `sublist_of`
         ([MadeDir "conf";
           Echo "dbx deployment file is not present, creating it from template"]
          ++ match template with
             | Some content => [Wrote "conf/deployment.json" content]
             | None => []
             end)
    /\ (forall p, p <> "conf" -> p <> "conf/deployment.json" ->
                  files' !! p = files !! p)
    /\ match r with
       | Ok _ => files' !! "conf" = Some Dir
                 /\ is_Some (files' !! "conf/deployment.json")
       | Raise e =>
           is_Some (files' !! "conf")
           /\ forall l', exists steps',
               _create_deployment_file template (World files' l')
               = (Raise e, World files' (l' ++ steps'))
       end.
Proof.
  destruct (files !! "conf") as [[c|]|] eqn:Hc;
    destruct (files !! "conf/deployment.json") as [[d|]|] eqn:Hd;
    destruct template as [tpl|]; eexists _, _, _;
    (split; [unfold _create_deployment_file, copy_template;
             change DEFAULT_DEPLOYMENT_FILE_PATH with "conf/deployment.json";
             change CONF_PATH with "conf"; prims; work; ran|]);
    (split; [cbn [app]; in_order|]); (split; [framed|]);
    cbn beta iota; work;
    try (split; [eauto|]; intros l'; eexists;
         unfold _create_deployment_file, copy_template;
         change DEFAULT_DEPLOYMENT_FILE_PATH with "conf/deployment.json";
         change CONF_PATH with "conf"; prims; work; ran);
    eauto.
Qed.





(** *** The whole of [initialize] *)


Lemma bind_run {S A B : Type} (m : prog S A) (k : A -> prog S B) (s : S) :
  (m ≫= k) s
  = match m s with
    | (Ok a, s') => k a s'
    | (Raise e, s') => (Raise e, s')
    end.
Proof. reflexivity. Qed.


(** *** What each step does, by what is in the tree *)






(** *** What a step that returns has done *)






(** *** A whole run, when it returns and what it has done then *)




(** On a tree without any of the paths, every step acts, in this order. *)
Lemma initialize_fresh (tpl : string) :
  initialize (Some tpl) (World ∅ [])
  = (Ok tt,
     World (<[INFO_FILE_PATH := File (Json.dumps (JObj init_content))]>
              (<[LOCK_FILE_PATH := File "{}"]>
                 (<[DEFAULT_DEPLOYMENT_FILE_PATH := File tpl]>
                    (<[CONF_PATH := Dir]> (<[DBX_PATH := Dir]> ∅)))))
           [Echo "dbx directory is not present, creating it";
            MadeDir DBX_PATH; MadeDir CONF_PATH;
            Echo "dbx deployment file is not present, creating it from template";
            Wrote DEFAULT_DEPLOYMENT_FILE_PATH tpl;
            Wrote LOCK_FILE_PATH "{}";
            Wrote INFO_FILE_PATH (Json.dumps (JObj init_content))]).
Proof.
  unfold initialize, _create_dir, _create_deployment_file, _create_lock_file,
    copy_template, write_json.
  change INFO_FILE_PATH with ".dbx/project.json".
  change LOCK_FILE_PATH with ".dbx/lock.json".
  change DEFAULT_DEPLOYMENT_FILE_PATH with "conf/deployment.json".
  change CONF_PATH with "conf". change DBX_PATH with ".dbx".
  generalize (Json.dumps (JObj init_content)). intros info.
  prims. work. rewrite !lookup_empty. work. rewrite ?lookup_empty. work.
  reflexivity.
Qed.
End InfoFileFacts.

(** ** Retried and plain calls *)

Module RetryFacts.

Lemma retry_unfold {A : Type} (n : nat) (delay backoff : Q) (f : net A)
    (s : remote) :
  retry (S n) delay backoff f s
  = match f s with
    | (Ok a, s') => (Ok (Some a), s')
    | (Raise e, s') =>
        match n with
        | O => (Raise e, s')
        | S _ => retry n (delay * backoff) backoff f (sleep delay s').2
        end
    end.
Proof. destruct n; cbn; destruct (f s) as [[a|e] s']; reflexivity. Qed.

Lemma perform_query_run (client : loc) (method path : string) (data : json)
    (s : remote) (url : string) (headers : loc) :
  heap s !! client = Some (ApiClientObj url headers) ->
  perform_query client method path data s
  = perform (Query method (url +:+ path) data) s.
Proof.
  intros H. unfold perform_query, get_url, get_heap, mbind, prog_bind.
  now rewrite H.
Qed.

Ltac attempt Hheap Hfail :=
  rewrite retry_unfold;
  erewrite perform_query_run by (cbn [heap]; exact Hheap);
  unfold perform at 1; cbn [respond calls heap trace snd sleep];
  rewrite Hfail.

(** C5. Against a transport that fails every call, [create_context] sends
    its request exactly 10 times, sleeps 5, 25, 125, ... seconds between
    consecutive attempts (9 sleeps, each 5 times the one before) and then
    raises the error of the tenth attempt.  The other operations of
    [ApiV1Client] send their request once and never sleep, whatever the
    answer: they leave the state of a single call. *)
Theorem create_context_retries (self : ApiV1Client.t) (payload : json)
    (s : remote) (url : string) (headers : loc) (failure : nat -> call -> exn) :
  heap s !! ApiV1Client.v1_client self = Some (ApiClientObj url headers) ->
  (forall n c, respond s n c = Raise (failure n c)) ->
  let create := Query "POST" (url +:+ "/contexts/create") payload in
  ApiV1Client.create_context self payload s
  = (Raise (failure (calls s + 9) create),
     Remote (heap s) (respond s) (calls s + 10)
       (trace s ++
        [Called create; Slept 5; Called create; Slept 25;
         Called create; Slept 125; Called create; Slept 625;
         Called create; Slept 3125; Called create; Slept 15625;
         Called create; Slept 78125; Called create; Slept 390625;
         Called create; Slept 1953125; Called create]))
  /\ (ApiV1Client.get_command_status self payload s).2
     = (perform (Query "GET" (url +:+ "/commands/status") payload) s).2
  /\ (ApiV1Client.cancel_command self payload s).2
     = (perform (Query "POST" (url +:+ "/commands/cancel") payload) s).2
  /\ (ApiV1Client.execute_command self payload s).2
     = (perform (Query "POST" (url +:+ "/commands/execute") payload) s).2
  /\ (ApiV1Client.get_context_status self payload s).2
     = (perform (Query "GET" (url +:+ "/contexts/status") payload) s).2.
Proof.
  intros Hheap Hfail create. repeat split.
  - unfold ApiV1Client.create_context. fold create.
    do 10 (attempt Hheap Hfail).
    rewrite <- !app_assoc. cbn [app].
    replace (calls s + 9) with (S (S (S (S (S (S (S (S (S (calls s))))))))))
      by lia.
    replace (calls s + 10)
      with (S (S (S (S (S (S (S (S (S (S (calls s)))))))))))
      by lia.
    reflexivity.
  - unfold ApiV1Client.get_command_status.
    now rewrite (perform_query_run _ _ _ _ _ _ _ Hheap).
  - unfold ApiV1Client.cancel_command, mbind, prog_bind.
    rewrite (perform_query_run _ _ _ _ _ _ _ Hheap).
    unfold perform. rewrite Hfail. reflexivity.
  - unfold ApiV1Client.execute_command.
    now rewrite (perform_query_run _ _ _ _ _ _ _ Hheap).
  - unfold ApiV1Client.get_context_status, try_except.
    rewrite (perform_query_run _ _ _ _ _ _ _ Hheap).
    unfold perform. rewrite Hfail.
    now destruct (decide (_ = HTTPError)).
Qed.

Lemma create_context_retries_witness :
  let s := Remote {[ 0 := ApiClientObj "https://host/api/1.2" 1;
                     1 := DictObj ∅ ]}
                  (fun _ _ => Raise HTTPError) 0 [] in
  let create := Query "POST" "https://host/api/1.2/contexts/create" JNull in
  ApiV1Client.create_context (ApiV1Client.Make 0) JNull s
  = (Raise HTTPError,
     Remote (heap s) (respond s) 10
       [Called create; Slept 5; Called create; Slept 25;
        Called create; Slept 125; Called create; Slept 625;
        Called create; Slept 3125; Called create; Slept 15625;
        Called create; Slept 78125; Called create; Slept 390625;
        Called create; Slept 1953125; Called create]).
Proof.
  intros s create.
  refine (proj1 (create_context_retries (ApiV1Client.Make 0) JNull s
                   "https://host/api/1.2" 1 (fun _ _ => HTTPError) _ _)).
  - vm_compute. reflexivity.
  - intros n c. reflexivity.
Defined.

(** C6, as the code has it.  Against a tracking server that fails every
    call, [upload_file] announces and sends the file exactly 3 times, sleeps
    1 second after the first failure and 0.3 seconds after the second, and
    raises the error of the third attempt; no third sleep takes place. *)
Theorem upload_file_retries (file_path : string) (s : remote)
    (failure : nat -> call -> exn) :
  (forall n c, respond s n c = Raise (failure n c)) ->
  let put := LogArtifact file_path (FileUploader.posix_parent file_path) in
  let line := Printed ("Deploying file: " +:+ file_path) in
  FileUploader.upload_file file_path s
  = (Raise (failure (calls s + 2) put),
     Remote (heap s) (respond s) (calls s + 3)
       (trace s ++
        [line; Called put; Slept 1; line; Called put; Slept (3 # 10);
         line; Called put])).
Proof.
  intros Hfail put line. unfold FileUploader.upload_file.
  do 3 (rewrite retry_unfold;
        unfold FileUploader.upload_file_body at 1, net_echo, perform, mbind,
          prog_bind;
        cbn [respond calls heap trace snd sleep]; rewrite Hfail).
  rewrite <- !app_assoc. cbn [app].
  replace (calls s + 2) with (S (S (calls s))) by lia.
  replace (calls s + 3) with (S (S (S (calls s)))) by lia.
  reflexivity.
Qed.

Lemma upload_file_retries_witness :
  let s := Remote ∅ (fun _ _ => Raise ConnectionError) 0 [] in
  let put := LogArtifact "dist/a.whl" "dist" in
  let line := Printed "Deploying file: dist/a.whl" in
  FileUploader.upload_file "dist/a.whl" s
  = (Raise ConnectionError,
     Remote ∅ (respond s) 3
       [line; Called put; Slept 1; line; Called put; Slept (3 # 10);
        line; Called put]).
Proof.
  intros s put line.
  refine (upload_file_retries "dist/a.whl" s (fun _ _ => ConnectionError) _).
  intros n c. reflexivity.
Defined.

(** C6 as stated does not hold: with every upload failing, the delays slept
    between the three attempts are 1 and 0.3 seconds; a delay of 0.09
    seconds is never slept. *)
Lemma upload_file_two_delays :
  let s := Remote ∅ (fun _ _ => Raise ConnectionError) 0 [] in
  let after := (FileUploader.upload_file "dist/a.whl" s).2 in
  omap (fun e => match e with Slept d => Some d | _ => None end) (trace after)
  = [1%Q; (3 # 10)%Q]
  /\ ~ In (Slept (9 # 100)) (trace after)
  /\ calls after = 3.
Proof.
  intros s after. split; [vm_compute; reflexivity|]. split; [|reflexivity].
  vm_compute. intuition discriminate.
Qed.
End RetryFacts.

(** ** The copied client *)

Module ClientFacts.

Lemma new_loc_fresh (h : gmap loc object) : h !! new_loc h = None.
Proof. apply not_elem_of_dom. unfold new_loc. apply is_fresh. Qed.

(** *** What [str.replace] does

    An occurrence of [old] at the front of [s] is [s = old +:+ r]. *)

Lemma starts_with_app (old r : string) : Str.starts_with old (old +:+ r) = Some r.
Proof.
  induction old as [|c old IH]; [now destruct r|].
  change (Str.starts_with (String c old) (String c (old +:+ r)) = Some r).
  cbn [Str.starts_with]. now rewrite decide_True.
Qed.

Lemma starts_with_Some (old s r : string) :
  Str.starts_with old s = Some r -> s = old +:+ r.
Proof.
  revert s. induction old as [|c old IH]; intros s.
  - destruct s; cbn [Str.starts_with]; intros [= <-]; reflexivity.
  - destruct s as [|d s]; cbn [Str.starts_with]; [discriminate|].
    destruct (decide (c = d)) as [->|]; [|discriminate].
    intros H. apply IH in H. now subst.
Qed.

Lemma starts_with_None (old s : string) :
  (forall r, s <> old +:+ r) -> Str.starts_with old s = None.
Proof.
  intros H. destruct (Str.starts_with old s) as [r|] eqn:E; [|reflexivity].
  apply starts_with_Some in E. now destruct (H r).
Qed.

Lemma replace_from_skip (x old new q : string) :
  Str.replace_from (String.length x) old new (x +:+ q)
  = Str.replace_from 0 old new q.
Proof.
  induction x as [|c x IH]; [reflexivity|].
  change (Str.replace_from (S (String.length x)) old new
            (String c (x +:+ q)) = Str.replace_from 0 old new q).
  cbn [Str.replace_from]. exact IH.
Qed.

(** An occurrence at the front is replaced, and the scan goes on behind
    it. *)
Lemma replace_at_match (old new q : string) :
  old <> EmptyString ->
  Str.replace old new (old +:+ q) = new +:+ Str.replace old new q.
Proof.
  intros Hne. unfold Str.replace. destruct old as [|c old]; [contradiction|].
  change (String c old +:+ q) with (String c (old +:+ q)).
  cbn [Str.replace_from].
  change (String c (old +:+ q)) with (String c old +:+ q).
  rewrite starts_with_app.
  replace (String.length (String c old) - 1) with (String.length old)
    by (cbn [String.length]; lia).
  now rewrite replace_from_skip.
Qed.

(** What stands before the first occurrence is kept. *)
Lemma replace_before_match (old new p s : string) :
  (forall p1 p2 r, p = p1 +:+ p2 -> p2 <> EmptyString ->
                   p2 +:+ s <> old +:+ r) ->
  Str.replace old new (p +:+ s) = p +:+ Str.replace old new s.
Proof.
  unfold Str.replace. induction p as [|c p IH]; intros H; [reflexivity|].
  change (String c p +:+ s) with (String c (p +:+ s)).
  cbn [Str.replace_from].
  change (String c (p +:+ s)) with (String c p +:+ s).
  rewrite starts_with_None
    by (intros r; apply (H EmptyString (String c p) r);
        [reflexivity|discriminate]).
  change (String c p +:+ Str.replace_from 0 old new s)
    with (String c (p +:+ Str.replace_from 0 old new s)).
  f_equal. apply IH. intros p1 p2 r E Hp2.
  apply (H (String c p1) p2 r); [|exact Hp2]. now rewrite E.
Qed.

(** A string without an occurrence is left as it is. *)
Lemma replace_absent (old new s : string) :
  old <> EmptyString ->
  (forall p r, s <> p +:+ old +:+ r) ->
  Str.replace old new s = s.
Proof.
  intros Hne. unfold Str.replace. induction s as [|c s IH]; intros H.
  - reflexivity.
  - cbn [Str.replace_from].
    rewrite starts_with_None by (intros r; apply (H EmptyString r)).
    f_equal. apply IH. intros p r E. apply (H (String c p) r). now rewrite E.
Qed.

(** C9. Constructing an [ApiV1Client] from a client leaves every object
    that existed before as it was, the client passed in and the dictionary
    it refers to included; the wrapper holds a new client, at a place that
    was free, with headers of its own that are equal to the original ones.
    Its URL is the original URL with ['/api/2.0'] replaced by ['/api/1.2']:
    when the original URL is [base] followed by ['/api/2.0'] and [rest],
    with no earlier occurrence, the new URL is [base] followed by
    ['/api/1.2'] and [rest] rewritten in the same way; an URL without
    ['/api/2.0'] is unchanged.  Nothing is sent. *)
Theorem init_copies_client (api_client : loc) (s : remote) (url : string)
    (headers : loc) (items : gmap string string) :
  heap s !! api_client = Some (ApiClientObj url headers) ->
  heap s !! headers = Some (DictObj items) ->
  exists (self : ApiV1Client.t) (s' : remote) (headers' : loc) (url' : string),
    ApiV1Client.__init__ api_client s = (Ok self, s')
    /\ (forall l o, heap s !! l = Some o -> heap s' !! l = Some o)
    /\ heap s !! ApiV1Client.v1_client self = None
    /\ heap s !! headers' = None
    /\ heap s' !! ApiV1Client.v1_client self = Some (ApiClientObj url' headers')
    /\ url' = Str.replace "/api/2.0" "/api/1.2" url
    /\ (forall base rest,
          url = base +:+ "/api/2.0" +:+ rest ->
          (forall p1 p2 r, base = p1 +:+ p2 -> p2 <> EmptyString ->
                           p2 +:+ "/api/2.0" +:+ rest <> "/api/2.0" +:+ r) ->
          url' = base +:+ "/api/1.2"
                 +:+ Str.replace "/api/2.0" "/api/1.2" rest)
    /\ ((forall p r, url <> p +:+ "/api/2.0" +:+ r) -> url' = url)
    /\ heap s' !! headers' = Some (DictObj items)
    /\ calls s' = calls s /\ trace s' = trace s.
Proof.
  intros Hc Hh.
  set (h1 := <[new_loc (heap s) := DictObj items]> (heap s)).
  assert (heap s !! new_loc h1 = None) as Hfresh.
  { pose proof (new_loc_fresh h1) as F. unfold h1 in F at 1.
    apply lookup_insert_None in F. tauto. }
  assert (new_loc h1 <> new_loc (heap s)) as Hne.
  { pose proof (new_loc_fresh h1) as F. unfold h1 in F at 1.
    apply lookup_insert_None in F. intros E. destruct F as [_ F].
    apply F. symmetry. exact E. }
  exists (ApiV1Client.Make (new_loc h1)).
  eexists. exists (new_loc (heap s)).
  exists (Str.replace "/api/2.0" "/api/1.2" url).
  split.
  { unfold ApiV1Client.__init__, deepcopy, get_url, set_url, get_heap,
      set_heap, mbind, prog_bind, mret, prog_ret.
    rewrite Hc, Hh. cbn [heap]. fold h1.
    rewrite lookup_insert_eq. cbn [heap]. rewrite lookup_insert_eq.
    cbn [heap respond calls trace]. reflexivity. }
  cbn [heap calls trace ApiV1Client.v1_client].
  repeat split.
  - intros l o Hl. rewrite insert_insert_eq.
    rewrite lookup_insert_ne by congruence.
    unfold h1. rewrite lookup_insert_ne; [exact Hl|].
    pose proof (new_loc_fresh (heap s)). congruence.
  - exact Hfresh.
  - apply new_loc_fresh.
  - now rewrite lookup_insert_eq.
  - intros base rest -> Hfirst.
    rewrite replace_before_match by exact Hfirst.
    now rewrite replace_at_match by discriminate.
  - intros Habsent. apply replace_absent; [discriminate|exact Habsent].
  - rewrite insert_insert_eq. rewrite lookup_insert_ne by congruence.
    unfold h1. now rewrite lookup_insert_eq.
Qed.

Lemma init_copies_client_witness :
  let s := Remote {[ 0 := ApiClientObj "https://host/api/2.0" 1;
                     1 := DictObj {[ "user-agent" := "dbx" ]} ]}
                  (fun _ _ => Raise HTTPError) 0 [] in
  exists (self : ApiV1Client.t) (s' : remote) (headers' : loc),
    ApiV1Client.__init__ 0 s = (Ok self, s')
    /\ heap s' !! 0 = Some (ApiClientObj "https://host/api/2.0" 1)
    /\ heap s' !! 1 = Some (DictObj {[ "user-agent" := "dbx" ]})
    /\ heap s !! ApiV1Client.v1_client self = None
    /\ heap s !! headers' = None
    /\ heap s' !! ApiV1Client.v1_client self
       = Some (ApiClientObj "https://host/api/1.2" headers')
    /\ heap s' !! headers' = Some (DictObj {[ "user-agent" := "dbx" ]})
    /\ calls s' = calls s /\ trace s' = trace s.
Proof.
  intros s.
  destruct (init_copies_client 0 s "https://host/api/2.0" 1
              {[ "user-agent" := "dbx" ]})
    as (self & s' & headers' & url' & Hi & Hframe & Hn1 & Hn2 & Hu & Hurl
        & _ & _ & Hh & Hcalls & Htrace).
  - vm_compute. reflexivity.
  - vm_compute. reflexivity.
  - exists self, s', headers'. rewrite Hurl in Hu.
    split; [exact Hi|].
    split; [apply Hframe; vm_compute; reflexivity|].
    split; [apply Hframe; vm_compute; reflexivity|].
    split; [exact Hn1|]. split; [exact Hn2|].
    split; [exact Hu|]. split; [exact Hh|]. split; assumption.
Defined.

(** Every occurrence is rewritten, also one in the middle of the URL. *)
Lemma replace_api_version :
  Str.replace "/api/2.0" "/api/1.2" "https://host/api/2.0/jobs"
  = "https://host/api/1.2/jobs"
  /\ Str.replace "/api/2.0" "/api/1.2" "https://host/api/2.0/api/2.0"
     = "https://host/api/1.2/api/1.2"
  /\ Str.replace "/api/2.0" "/api/1.2" "https://host/api/1.2"
     = "https://host/api/1.2".
Proof. repeat split. Qed.
End ClientFacts.

(** ** Splitting strings *)

Module StrFacts.
Import Str.

Lemma split_nonempty (sep : ascii) (s : string) : split sep s <> [].
Proof.
  destruct s as [|c r]; cbn; [discriminate|].
  destruct (decide (c = sep)); [discriminate|].
  destruct (split sep r); discriminate.
Qed.

Lemma concat_cons_char (sep : string) (c : ascii) (h : string)
    (t : list string) :
  String.concat sep (String c h :: t) = String c (String.concat sep (h :: t)).
Proof. destruct t; reflexivity. Qed.

(** Joining the segments with the separator gives the string back. *)
Lemma split_join (sep : ascii) (s : string) :
  String.concat (String sep EmptyString) (split sep s) = s.
Proof.
  induction s as [|c r IH]; [reflexivity|]. cbn [split].
  pose proof (split_nonempty sep r) as Hn.
  destruct (split sep r) as [|h t] eqn:E; [contradiction|].
  destruct (decide (c = sep)) as [->|Hne].
  - change (String.concat (String sep EmptyString) (EmptyString :: h :: t))
      with (String sep (String.concat (String sep EmptyString) (h :: t))).
    now rewrite IH.
  - rewrite concat_cons_char. now rewrite IH.
Qed.

(** No segment contains the separator. *)
Lemma split_no_sep (sep : ascii) (s : string) :
  Forall (fun seg => ~ In sep (list_ascii_of_string seg)) (split sep s).
Proof.
  induction s as [|c r IH]; cbn [split].
  - constructor; [|constructor]. cbn. tauto.
  - destruct (decide (c = sep)) as [->|Hne].
    + constructor; [cbn; tauto|exact IH].
    + destruct (split sep r) as [|h t]; [constructor; [|constructor]|].
      * cbn. intros [E|[]]. congruence.
      * inversion IH as [|? ? Hh Ht]; subst. constructor; [|exact Ht].
        cbn. intros [E|Hin]; [congruence|tauto].
Qed.

(** A string without the separator is its own single segment. *)
Lemma split_without_sep (sep : ascii) (s : string) :
  ~ In sep (list_ascii_of_string s) -> split sep s = [s].
Proof.
  induction s as [|c r IH]; [reflexivity|]. cbn. intros H.
  destruct (decide (c = sep)) as [->|Hne]; [tauto|].
  rewrite IH by tauto. reflexivity.
Qed.

(** A string with the separator has at least two segments. *)
Lemma split_with_sep (sep : ascii) (s : string) :
  In sep (list_ascii_of_string s) ->
  exists k v rest, split sep s = k :: v :: rest.
Proof.
  induction s as [|c r IH]; [intros []|]. cbn. intros H.
  destruct (decide (c = sep)) as [->|Hne].
  - pose proof (split_nonempty sep r).
    destruct (split sep r) as [|h t]; [contradiction|]. eauto.
  - destruct H as [E|H]; [congruence|].
    destruct (IH H) as (k & v & rest & ->). eauto.
Qed.

Lemma append_cons_assoc (x : string) (c : ascii) (p y : string) :
  x +:+ String c (p +:+ y) = (x +:+ String c p) +:+ y.
Proof.
  induction x as [|a x IH]; [reflexivity|].
  change (String a (x +:+ String c (p +:+ y))
          = String a ((x +:+ String c p) +:+ y)).
  now f_equal.
Qed.

Lemma concat_last (sep : ascii) (l : list string) :
  l <> [] ->
  String.concat (String sep EmptyString) l = List.last l EmptyString
  \/ exists p, String.concat (String sep EmptyString) l
               = p +:+ String sep (List.last l EmptyString).
Proof.
  induction l as [|x l IHl]; [contradiction|]. intros _.
  destruct l as [|y l']; [left; reflexivity|].
  right.
  change (List.last (x :: y :: l') EmptyString)
    with (List.last (y :: l') EmptyString).
  change (String.concat (String sep EmptyString) (x :: y :: l'))
    with (x +:+ String sep
                  (String.concat (String sep EmptyString) (y :: l'))).
  destruct IHl as [E|[p E]]; [discriminate| |].
  - exists x. now rewrite <- E.
  - exists (x +:+ String sep p). rewrite E. apply append_cons_assoc.
Qed.

(** The last segment is what follows the last separator. *)
Lemma last_segment (sep : ascii) (s : string) :
  ~ In sep (list_ascii_of_string (List.last (split sep s) EmptyString))
  /\ (s = List.last (split sep s) EmptyString
      \/ exists p, s = p +:+ String sep (List.last (split sep s) EmptyString)).
Proof.
  split.
  - pose proof (split_no_sep sep s) as F. pose proof (split_nonempty sep s) as N.
    induction (split sep s) as [|x l IHl]; [contradiction|].
    inversion F; subst. destruct l as [|y l']; [assumption|].
    apply IHl; [assumption|discriminate].
  - pose proof (concat_last sep (split sep s) (split_nonempty sep s)) as H.
    now rewrite split_join in H.
Qed.
End StrFacts.

(** ** Branch resolution *)

Module BranchFacts.

(** C8. With [GITHUB_REF] set, whatever the repository, the result is the
    last segment of its value: the part without a slash that ends the value,
    the whole value when it has no slash, ["main"] for
    ["refs/heads/main"].  Without the variable, the result is the name of
    the active branch when HEAD is attached, and no value when HEAD is
    detached or the directory is not a repository. *)
Theorem branch_name_resolution (environ : gmap string string)
    (value name : string) (repo : repository) :
  (exists branch,
     get_current_branch_name (<["GITHUB_REF" := value]> environ) repo
     = Some branch
     /\ ~ In "/"%char (list_ascii_of_string branch)
     /\ (value = branch \/ exists p, value = p +:+ String "/" branch))
  /\ get_current_branch_name (<["GITHUB_REF" := "refs/heads/main"]> environ) repo
     = Some "main"
  /\ get_current_branch_name (delete "GITHUB_REF" environ) DetachedHead = None
  /\ get_current_branch_name (delete "GITHUB_REF" environ) (OnBranch name)
     = Some name
  /\ get_current_branch_name (delete "GITHUB_REF" environ) NotARepository
     = None.
Proof.
  unfold get_current_branch_name.
  rewrite !lookup_insert_eq, !lookup_delete_eq. repeat split.
  exists (List.last (Str.split "/" value) EmptyString).
  split; [reflexivity|]. apply StrFacts.last_segment.
Qed.
End BranchFacts.

(** ** Command-line tags *)

Module TagFacts.

Lemma parse_multiple_snoc (l : list string) (s : string) :
  parse_multiple (l ++ [s])
  = match parse_multiple l with
    | Ok tags_dict =>
        match Str.split "=" s with
        | k :: v :: _ => Ok (<[k := v]> tags_dict)
        | _ => Raise IndexError
        end
    | Raise e => Raise e
    end.
Proof.
  unfold parse_multiple. rewrite map_app, foldl_app. reflexivity.
Qed.

Lemma parse_multiple_raises (l : list string) :
  forall e, parse_multiple l = Raise e -> e = IndexError.
Proof.
  induction l as [|s l IH] using rev_ind; [discriminate|].
  intros e. rewrite parse_multiple_snoc.
  destruct (parse_multiple l) as [m|e'].
  - destruct (Str.split "=" s) as [|k [|v rest]]; congruence.
  - intros [= <-]. now apply IH.
Qed.

(** C10, as the code has it.  On a list in which every string contains an
    ['='], [parse_multiple] returns a map; a string [k=v...] of the list
    binds [k] to [v] (the segments before the first and between the first
    and second ['=']) unless a later string has the same first segment, and
    the map has no other keys.  On a list with a string that contains no
    ['='] it raises [IndexError]. *)
Theorem parse_multiple_last_wins (l : list string) :
  (Forall (fun s => In "="%char (list_ascii_of_string s)) l ->
   exists tags : gmap string string,
     parse_multiple l = Ok tags
     /\ (forall before s after k v rest,
           l = before ++ s :: after ->
           Str.split "=" s = k :: v :: rest ->
           (forall s', In s' after -> head (Str.split "=" s') <> Some k) ->
           tags !! k = Some v)
     /\ (forall k, (forall s, In s l -> head (Str.split "=" s) <> Some k) ->
                   tags !! k = None))
  /\ (Exists (fun s => ~ In "="%char (list_ascii_of_string s)) l ->
      parse_multiple l = Raise IndexError).
Proof.
  split.
  - induction l as [|s l IH] using rev_ind; intros Hall.
    + exists ∅. split; [reflexivity|]. split.
      * intros [|? ?] ? ? ? ? ? E; discriminate E.
      * intros k _. apply lookup_empty.
    + apply Forall_app in Hall as [Hl Hs]. inversion Hs as [|? ? Hs' _]; subst.
      destruct (IH Hl) as (tags & E & Hlast & Hnone).
      destruct (StrFacts.split_with_sep _ _ Hs') as (k & v & rest & Es).
      exists (<[k := v]> tags). split; [|split].
      * rewrite parse_multiple_snoc, E, Es. reflexivity.
      * intros before s0 after k0 v0 rest0 Hdec Es0 Hlater.
        destruct after as [|a after'] using rev_ind.
        -- apply app_inj_tail in Hdec as [-> ->].
           rewrite Es in Es0. injection Es0 as -> -> _.
           apply lookup_insert_eq.
        -- clear IHafter'.
           rewrite app_comm_cons, app_assoc in Hdec.
           apply app_inj_tail in Hdec as [-> ->].
           rewrite lookup_insert_ne.
           ++ apply (Hlast before s0 after' k0 v0 rest0 eq_refl Es0).
              intros s' Hin. apply Hlater. apply in_or_app. now left.
           ++ intros ->. apply (Hlater a); [apply in_or_app; right; now left|].
              now rewrite Es.
      * intros k0 Hk0. rewrite lookup_insert_ne.
        -- apply Hnone. intros s' Hin. apply Hk0. apply in_or_app. now left.
        -- intros ->. apply (Hk0 s); [apply in_or_app; right; now left|].
           now rewrite Es.
  - induction l as [|s l IH] using rev_ind; intros Hex.
    + inversion Hex.
    + rewrite parse_multiple_snoc. apply Exists_app in Hex as [Hex|Hex].
      * now rewrite IH.
      * inversion Hex as [? ? Hs|? ? Hn]; [|inversion Hn]. subst.
        rewrite (StrFacts.split_without_sep _ _ Hs).
        destruct (parse_multiple l) as [m|e] eqn:E; [reflexivity|].
        now rewrite (parse_multiple_raises l e E).
Qed.

Lemma parse_multiple_last_wins_witness :
  (exists tags : gmap string string,
     parse_multiple ["env=dev"; "owner=a=b"] = Ok tags
     /\ (forall before s after k v rest,
           ["env=dev"; "owner=a=b"] = before ++ s :: after ->
           Str.split "=" s = k :: v :: rest ->
           (forall s', In s' after -> head (Str.split "=" s') <> Some k) ->
           tags !! k = Some v)
     /\ (forall k, (forall s, In s ["env=dev"; "owner=a=b"] ->
                              head (Str.split "=" s) <> Some k) ->
                   tags !! k = None))
  /\ parse_multiple ["env=dev"; "owner"] = Raise IndexError.
Proof.
  split.
  - apply (proj1 (parse_multiple_last_wins ["env=dev"; "owner=a=b"])).
    repeat constructor; vm_compute; tauto.
  - apply (proj2 (parse_multiple_last_wins ["env=dev"; "owner"])).
    right. left. vm_compute. intuition discriminate.
Defined.

(** C10 as stated does not hold: every string of [["a=1"; "a=2"]] contains
    an ['='], and the map returned does not send the first segment of
    ["a=1"] to its second segment: it sends ["a"] to ["2"]. *)
Lemma parse_multiple_duplicate_key :
  Forall (fun s => In "="%char (list_ascii_of_string s)) ["a=1"; "a=2"]
  /\ Str.split "=" "a=1" = ["a"; "1"]
  /\ parse_multiple ["a=1"; "a=2"] = Ok {[ "a" := "2" ]}
  /\ ({[ "a" := "2" ]} : gmap string string) !! "a" <> Some "1".
Proof.
  split; [repeat constructor; vm_compute; tauto|].
  split; [reflexivity|]. split; [vm_compute; reflexivity|].
  vm_compute. discriminate.
Qed.
End TagFacts.

(** ** More on the JSON store *)

Module StoreMore.
Import Os OsFacts StoreFacts.

Lemma bind_ok_inv {S A B : Type} (m : prog S A) (k : A -> prog S B)
    (s s' : S) (b : B) :
  (m ≫= k) s = (Ok b, s') ->
  exists a s1, m s = (Ok a, s1) /\ k a s1 = (Ok b, s').
Proof.
  unfold mbind, prog_bind. destruct (m s) as [[a|e] s1]; [eauto|discriminate].
Qed.

Lemma read_json_pure (P : string) (w : world) : (read_json P w).2 = w.
Proof.
  unfold read_json, read_text, json_load, mbind, prog_bind, mret, prog_ret,
    raise.
  destruct (resolve (fs w) P) as [[[c|]|]|e]; try reflexivity.
  now destruct (Json.loads c).
Qed.

Lemma write_text_cases (P content : string) (w : world) :
  (writable (fs w) P = true
   /\ write_text P content w
      = (Ok tt, World (<[P := File content]> (fs w))
                      (log w ++ [Wrote P content])))
  \/ exists e, write_text P content w = (Raise e, w).
Proof.
  unfold write_text, writable.
  destruct (resolve (fs w) P) as [[[c|]|]|e]; eauto.
Qed.

(** What [update_json] starts from: the map in the file, or the empty map
    when no file is there. *)
Lemma update_json_ok_inv (M : dict) (P : string) (w w' : world) :
  update_json M P w = (Ok tt, w') ->
  exists C : dict,
    writable (fs w) P = true
    /\ (forall M', update_json M' P w
                   = (Ok tt, World (<[P := File (Json.dumps (JObj (M' ∪ C)))]>
                                      (fs w))
                                   (log w ++ [Wrote P (Json.dumps
                                                 (JObj (M' ∪ C)))]))).
Proof.
  unfold update_json. intros H.
  apply bind_ok_inv in H as (j & w1 & Hread & H).
  apply bind_ok_inv in H as (D & w2 & Hupd & Hwrite).
  assert (w1 = w) as ->.
  { unfold try_except in Hread. pose proof (read_json_pure P w) as Hp.
    destruct (read_json P w) as [[j'|e] w0]; cbn in Hp; subst w0.
    - now inversion Hread.
    - destruct (decide (e = FileNotFoundError)); [|discriminate].
      now inversion Hread. }
  destruct j as [| | | | |C]; try discriminate Hupd.
  inversion Hupd; subst. exists C.
  destruct (write_text_cases P (Json.dumps (JObj (M ∪ C))) w2)
    as [[Hw _]|[e He]].
  2:{ unfold write_json in Hwrite. rewrite He in Hwrite. discriminate. }
  split; [exact Hw|]. intros M'.
  erewrite bind_ok by exact Hread. erewrite bind_ok by reflexivity.
  now apply write_json_ok.
Qed.

(** A file that holds a JSON document other than an object is not merged
    into and not replaced: [update_json] raises [AttributeError] and the
    tree stays as it was. *)
Theorem update_json_not_an_object (M : dict) (P text : string) (j : json)
    (w : world) :
  resolve (fs w) P = Ok (Some (File text)) ->
  Json.loads text = Some j ->
  (forall C, j <> JObj C) ->
  update_json M P w = (Raise AttributeError, w).
Proof.
  intros Hr Hl Hj. unfold update_json.
  erewrite bind_ok by (eapply try_ok, read_json_file; eassumption).
  destruct j as [| | | | |C]; try reflexivity. now destruct (Hj C).
Qed.

Lemma update_json_not_an_object_witness :
  update_json {[ "context_id" := JStr "1" ]} "lock.json"
    (World {[ "lock.json" := File "[1, 2]" ]} [])
  = (Raise AttributeError, World {[ "lock.json" := File "[1, 2]" ]} []).
Proof.
  refine (update_json_not_an_object _ "lock.json" "[1, 2]"
            (JArr [JInt 1; JInt 2]) (World {[ "lock.json" := File "[1, 2]" ]} [])
            _ _ _).
  - vm_compute. reflexivity.
  - vm_compute. reflexivity.
  - intros C. discriminate.
Defined.

(** Two updates of the same file in a row both succeed, and the document
    then read from the file is the one read after the single update with
    the merged map: a key of the later map has the value the later map gives
    it, a key of the earlier map only keeps the value of the earlier map.
    In particular the same update twice gives the document of the update
    once. *)
Theorem update_json_twice (M1 M2 : dict) (P : string) (w w1 : world) :
  update_json M1 P w = (Ok tt, w1) ->
  exists (w2 : world) (D : dict),
    update_json M2 P w1 = (Ok tt, w2)
    /\ read_json P w2 = (Ok (JObj D), w2)
    /\ (read_json P (update_json (M2 ∪ M1) P w).2).1 = Ok (JObj D)
    /\ (forall k v, M2 !! k = Some v -> D !! k = Some v)
    /\ (forall k v, M2 !! k = None -> M1 !! k = Some v -> D !! k = Some v)
    /\ (M2 = M1 -> (read_json P w1).1 = Ok (JObj D)).
Proof.
  intros H1. destruct (update_json_ok_inv _ _ _ _ H1) as (C & Hw & Hall).
  rewrite (Hall M1) in H1. inversion H1 as [Hw1]. clear H1.
  assert (resolve (<[P := File (Json.dumps (JObj (M1 ∪ C)))]> (fs w)) P
          = Ok (Some (File (Json.dumps (JObj (M1 ∪ C)))))) as Hr
    by now apply resolve_written.
  eexists. exists (M2 ∪ (M1 ∪ C)). repeat split.
  - eapply (update_json_file M2 (M1 ∪ C) P (Json.dumps (JObj (M1 ∪ C)))).
    + exact Hr.
    + apply JsonFacts.loads_dumps.
  - apply read_back. cbn [fs]. eapply writable_of_file, Hr.
  - rewrite (Hall (M2 ∪ M1)). cbn [snd].
    rewrite (read_back _ _ _ _ Hw). cbn [fst].
    now rewrite (assoc_L (∪)).
  - intros k v Hk. now apply lookup_union_Some_l.
  - intros k v Hk2 Hk1. rewrite lookup_union_r by exact Hk2.
    now apply lookup_union_Some_l.
  - intros ->. rewrite (read_back _ _ _ _ Hw). cbn [fst].
    rewrite (assoc_L (∪)). now rewrite (idemp_L (∪) M1).
Qed.

Lemma update_json_twice_witness :
  exists (w2 : world) (D : dict),
    update_json {[ "b" := JInt 2 ]} "a.json"
      (update_json {[ "a" := JInt 1 ]} "a.json" (World ∅ [])).2
    = (Ok tt, w2)
    /\ read_json "a.json" w2 = (Ok (JObj D), w2)
    /\ (read_json "a.json"
          (update_json ({[ "b" := JInt 2 ]} ∪ {[ "a" := JInt 1 ]}) "a.json"
             (World ∅ [])).2).1 = Ok (JObj D)
    /\ (forall k v, ({[ "b" := JInt 2 ]} : dict) !! k = Some v ->
                    D !! k = Some v)
    /\ (forall k v, ({[ "b" := JInt 2 ]} : dict) !! k = None ->
                    ({[ "a" := JInt 1 ]} : dict) !! k = Some v ->
                    D !! k = Some v)
    /\ (({[ "b" := JInt 2 ]} : dict) = {[ "a" := JInt 1 ]} ->
        (read_json "a.json"
           (update_json {[ "a" := JInt 1 ]} "a.json" (World ∅ [])).2).1
        = Ok (JObj D)).
Proof.
  refine (update_json_twice {[ "a" := JInt 1 ]} {[ "b" := JInt 2 ]} "a.json"
            (World ∅ []) _ _).
  vm_compute. reflexivity.
Defined.
End StoreMore.

(** ** The files of a project *)

Module ProjectFacts.
Import Os OsFacts StoreFacts StoreMore InfoFile InfoFileFacts.

Lemma exists_written (P content : string) (files : gmap string node)
    (l : list event) :
  writable files P = true ->
  exists_ P (World (<[P := File content]> files) l)
  = (Ok true, World (<[P := File content]> files) l).
Proof.
  intros Hw. unfold exists_. cbn [fs]. now rewrite resolve_written.
Qed.

(** What [update_json] wrote can be looked up: a key of the map passed in
    has the value passed in. *)
Lemma update_json_lookup (M : dict) (P key : string) (v : json)
    (w w' : world) :
  update_json M P w = (Ok tt, w') ->
  M !! key = Some v ->
  exists_ P w' = (Ok true, w')
  /\ (content ← read_json P; dict_get content key) w' = (Ok v, w').
Proof.
  intros Hu Hk. destruct (update_json_ok_inv _ _ _ _ Hu) as (C & Hw & Hall).
  rewrite (Hall M) in Hu. inversion Hu. split.
  - now apply exists_written.
  - erewrite bind_ok by (apply read_back; exact Hw).
    unfold dict_get. now rewrite (lookup_union_Some_l _ _ _ _ Hk).
Qed.

(** The context that [set_context] stores is the one [get_context] returns
    afterwards. *)
Theorem set_context_get_context (context_id : string) (w w' : world) :
  ContextLockFile.set_context context_id w = (Ok tt, w') ->
  ContextLockFile.get_context w' = (Ok (JStr context_id), w').
Proof.
  unfold ContextLockFile.set_context, ContextLockFile.get_context. intros Hu.
  destruct (update_json_lookup _ _ "context_id" (JStr context_id) _ _ Hu)
    as [He Hg]; [apply lookup_singleton_eq|].
  erewrite bind_ok by exact He. exact Hg.
Qed.

Lemma set_context_get_context_witness :
  ContextLockFile.get_context
    (ContextLockFile.set_context "0123"
       (World {[ ".dbx" := Dir ]} [])).2
  = (Ok (JStr "0123"),
     (ContextLockFile.set_context "0123" (World {[ ".dbx" := Dir ]} [])).2).
Proof.
  refine (set_context_get_context "0123" (World {[ ".dbx" := Dir ]} []) _ _).
  vm_compute. reflexivity.
Defined.

(** The values that [InfoFile.update] stores are the ones [InfoFile.get]
    returns afterwards, without [ProjectNotConfigured]. *)
Theorem info_update_get (content : dict) (item : string) (v : json)
    (w w' : world) :
  InfoFile.update content w = (Ok tt, w') ->
  content !! item = Some v ->
  InfoFile.get item w' = (Ok v, w').
Proof.
  unfold InfoFile.update, InfoFile.get. intros Hu Hk.
  destruct (update_json_lookup _ _ item v _ _ Hu Hk) as [He Hg].
  erewrite bind_ok by exact He. exact Hg.
Qed.

Lemma info_update_get_witness :
  InfoFile.get "profile"
    (InfoFile.update {[ "profile" := JStr "DEFAULT" ]}
       (World {[ ".dbx" := Dir ]} [])).2
  = (Ok (JStr "DEFAULT"),
     (InfoFile.update {[ "profile" := JStr "DEFAULT" ]}
        (World {[ ".dbx" := Dir ]} [])).2).
Proof.
  refine (info_update_get {[ "profile" := JStr "DEFAULT" ]} "profile"
            (JStr "DEFAULT") (World {[ ".dbx" := Dir ]} []) _ _ _).
  - vm_compute. reflexivity.
  - vm_compute. reflexivity.
Defined.

(** [initialize] writes the info file whether or not one is there: after a
    run that succeeds the info file holds [{"environments": {}}], whatever
    it held before, and [InfoFile.get] finds no environment. *)
Theorem initialize_resets_info (template : option string) (w w' : world) :
  initialize template w = (Ok tt, w') ->
  read_json INFO_FILE_PATH w' = (Ok (JObj init_content), w')
  /\ InfoFile.get "environments" w' = (Ok (JObj ∅), w').
Proof.
  unfold initialize. intros H.
  apply bind_ok_inv in H as (? & s1 & _ & H).
  apply bind_ok_inv in H as (? & s2 & _ & H).
  apply bind_ok_inv in H as (? & s3 & _ & H).
  unfold write_json in H.
  destruct (write_text_cases INFO_FILE_PATH (Json.dumps (JObj init_content)) s3)
    as [[Hw E]|[e E]]; rewrite E in H; [|discriminate].
  inversion H. split.
  - now apply read_back.
  - unfold InfoFile.get. erewrite bind_ok by (now apply exists_written).
    cbn beta iota. erewrite bind_ok by (now apply read_back). reflexivity.
Qed.

Lemma initialize_resets_info_witness :
  let w := World {[ ".dbx" := Dir;
                    ".dbx/project.json" :=
                      File (Json.dumps (JObj {[ "environments" :=
                              JObj {[ "default" := JObj ∅ ]} ]})) ]} [] in
  read_json INFO_FILE_PATH (initialize (Some "{}") w).2
  = (Ok (JObj init_content), (initialize (Some "{}") w).2)
  /\ InfoFile.get "environments" (initialize (Some "{}") w).2
     = (Ok (JObj ∅), (initialize (Some "{}") w).2).
Proof.
  intros w. refine (initialize_resets_info (Some "{}") w _ _).
  vm_compute. reflexivity.
Defined.

Lemma create_lock_file_ok (files : gmap string node) (l : list event)
    (w3 : world) :
  _create_lock_file (World files l) = (Ok tt, w3) ->
  files !! ".dbx" = Some Dir
  /\ fs w3 = match files !! ".dbx/lock.json" with
             | Some _ => files
             | None => <[".dbx/lock.json" := File "{}"]> files
             end.
Proof.
  unfold _create_lock_file. change LOCK_FILE_PATH with ".dbx/lock.json".
  prims.
  destruct (files !! ".dbx") as [[c|]|] eqn:Hc;
    destruct (files !! ".dbx/lock.json") as [[d|]|] eqn:Hd;
    work; intros H; inversion H; try discriminate; split; reflexivity.
Qed.

(** [initialize] leaves a lock file that is there as it is, and creates an
    empty one otherwise: after a run that succeeds on a tree without a lock
    file, the lock file is there and holds [{}], and [get_context] returns
    [None]. *)
Theorem initialize_keeps_lock_file (template : option string) (w w' : world) :
  initialize template w = (Ok tt, w') ->
  (forall n, fs w !! LOCK_FILE_PATH = Some n -> fs w' !! LOCK_FILE_PATH = Some n)
  /\ (fs w !! LOCK_FILE_PATH = None ->
      resolve (fs w') LOCK_FILE_PATH = Ok (Some (File "{}"))
      /\ read_json LOCK_FILE_PATH w' = (Ok (JObj ∅), w')
      /\ ContextLockFile.get_context w' = (Ok JNull, w')).
Proof.
  destruct w as [f l]. unfold initialize. intros H.
  apply bind_ok_inv in H as ([] & st1 & H1 & H).
  apply bind_ok_inv in H as ([] & st2 & H2 & H).
  apply bind_ok_inv in H as ([] & st3 & H3 & H).
  destruct (create_dir_run f l) as (f1 & s1 & E1 & _ & F1 & _).
  rewrite E1 in H1. inversion H1; subst st1. clear H1.
  destruct (create_deployment_file_run template f1 (l ++ s1))
    as (r2 & f2 & s2 & E2 & _ & F2 & _).
  rewrite E2 in H2. inversion H2; subst r2 st2. clear H2.
  apply create_lock_file_ok in H3 as [Hd H3].
  unfold write_json in H.
  destruct (write_text_cases INFO_FILE_PATH (Json.dumps (JObj init_content)) st3)
    as [[Hw E]|[e E]]; rewrite E in H; [|discriminate].
  inversion H as [Hw']. clear H E.
  change LOCK_FILE_PATH with ".dbx/lock.json".
  change INFO_FILE_PATH with ".dbx/project.json". cbn [fs].
  assert (f2 !! ".dbx/lock.json" = f !! ".dbx/lock.json") as Hl.
  { rewrite F2, F1 by discriminate. reflexivity. }
  split.
  - intros n Hn. rewrite lookup_insert_ne by discriminate.
    rewrite H3, Hl, Hn. now rewrite Hl, Hn.
  - intros Hn. rewrite Hl, Hn in H3.
    assert (resolve (<[".dbx/project.json" :=
                         File (Json.dumps (JObj init_content))]> (fs st3))
              ".dbx/lock.json" = Ok (Some (File "{}"))) as Hr.
    { rewrite resolve_lock, H3.
      rewrite !lookup_insert_ne by discriminate. rewrite Hd.
      now rewrite lookup_insert_eq. }
    assert (read_json ".dbx/lock.json"
              (World (<[".dbx/project.json" :=
                          File (Json.dumps (JObj init_content))]> (fs st3))
                     (log st3 ++ [Wrote ".dbx/project.json"
                                    (Json.dumps (JObj init_content))]))
            = (Ok (JObj ∅),
               World (<[".dbx/project.json" :=
                          File (Json.dumps (JObj init_content))]> (fs st3))
                     (log st3 ++ [Wrote ".dbx/project.json"
                                    (Json.dumps (JObj init_content))])))
      as Hread.
    { apply read_json_file with (text := "{}"); [exact Hr|].
      vm_compute. reflexivity. }
    split; [exact Hr|]. split; [exact Hread|].
    unfold ContextLockFile.get_context.
    change LOCK_FILE_PATH with ".dbx/lock.json".
    erewrite bind_ok; cycle 1.
    { unfold exists_. cbn [fs]. rewrite Hr. reflexivity. }
    cbn beta iota.
    erewrite bind_ok by exact Hread.
    reflexivity.
Qed.

Lemma initialize_keeps_lock_file_witness :
  (forall n, (∅ : gmap string node) !! LOCK_FILE_PATH = Some n ->
             fs (initialize (Some "{}") (World ∅ [])).2 !! LOCK_FILE_PATH
             = Some n)
  /\ ((∅ : gmap string node) !! LOCK_FILE_PATH = None ->
      resolve (fs (initialize (Some "{}") (World ∅ [])).2) LOCK_FILE_PATH
      = Ok (Some (File "{}"))
      /\ read_json LOCK_FILE_PATH (initialize (Some "{}") (World ∅ [])).2
         = (Ok (JObj ∅), (initialize (Some "{}") (World ∅ [])).2)
      /\ ContextLockFile.get_context (initialize (Some "{}") (World ∅ [])).2
         = (Ok JNull, (initialize (Some "{}") (World ∅ [])).2)).
Proof.
  refine (initialize_keeps_lock_file (Some "{}") (World ∅ []) _ _).
  vm_compute. reflexivity.
Defined.
End ProjectFacts.

(** ** More on the remote side *)

Module RemoteMore.
Import RetryFacts.

(** [get_context_status] sends one request; it returns the answer, returns
    [None] when the request fails with an HTTP error, and lets every other
    error through. *)
Theorem get_context_status_outcomes (self : ApiV1Client.t) (payload : json)
    (s : remote) (url : string) (headers : loc) :
  heap s !! ApiV1Client.v1_client self = Some (ApiClientObj url headers) ->
  let status := Query "GET" (url +:+ "/contexts/status") payload in
  ApiV1Client.get_context_status self payload s
  = (match respond s (calls s) status with
     | Ok answer => Ok answer
     | Raise HTTPError => Ok JNull
     | Raise e => Raise e
     end,
     (perform status s).2).
Proof.
  intros Hheap status. unfold ApiV1Client.get_context_status, try_except.
  rewrite (perform_query_run _ _ _ _ _ _ _ Hheap). fold status.
  unfold perform. cbn [snd].
  destruct (respond s (calls s) status) as [j|e]; [reflexivity|].
  destruct (decide (e = HTTPError)) as [->|Hne]; [reflexivity|].
  destruct e; try reflexivity. contradiction.
Qed.

Lemma get_context_status_outcomes_witness :
  let s := Remote {[ 0 := ApiClientObj "https://host/api/1.2" 1;
                     1 := DictObj ∅ ]}
                  (fun _ _ => Raise HTTPError) 0 [] in
  ApiV1Client.get_context_status (ApiV1Client.Make 0) JNull s
  = (Ok JNull,
     (perform (Query "GET" "https://host/api/1.2/contexts/status" JNull) s).2).
Proof.
  intros s.
  refine (get_context_status_outcomes (ApiV1Client.Make 0) JNull s
            "https://host/api/1.2" 1 _).
  vm_compute. reflexivity.
Defined.

(** [file_exists] never raises: it asks for the status once and answers
    whether that call succeeded, whatever the failure was. *)
Theorem file_exists_never_raises (file_path : string) (s : remote) :
  FileUploader.file_exists file_path s
  = (Ok (match respond s (calls s) (DbfsGetStatus file_path) with
         | Ok _ => true
         | Raise _ => false
         end),
     (perform (DbfsGetStatus file_path) s).2).
Proof.
  unfold FileUploader.file_exists, perform. cbn [snd].
  now destruct (respond s (calls s) (DbfsGetStatus file_path)).
Qed.

(** [create_context] stops at the first attempt that succeeds: when the
    first [k] requests fail and the next one is answered, it returns that
    answer after [k + 1] requests and [k] sleeps, of 5, 25, 125, ...
    seconds. *)
Theorem create_context_first_success (self : ApiV1Client.t) (payload : json)
    (s : remote) (url : string) (headers : loc) (k : nat) (answer : json)
    (failure : nat -> exn) :
  heap s !! ApiV1Client.v1_client self = Some (ApiClientObj url headers) ->
  k < 10 ->
  let create := Query "POST" (url +:+ "/contexts/create") payload in
  (forall n, calls s <= n < calls s + k ->
             respond s n create = Raise (failure n)) ->
  respond s (calls s + k) create = Ok answer ->
  ApiV1Client.create_context self payload s
  = (Ok (Some answer),
     Remote (heap s) (respond s) (calls s + S k)
       (trace s
        ++ flat_map (fun delay => [Called create; Slept delay])
             (take k [5; 25; 125; 625; 3125; 15625; 78125; 390625; 1953125]%Q)
        ++ [Called create])).
Proof.
  intros Hheap Hk create Hfail Hok. subst create.
  unfold ApiV1Client.create_context.
  rewrite (Nat.add_comm (calls s)) in Hok. rewrite (Nat.add_comm (calls s)).
  do 10 (destruct k as [|k];
         [cbn [Nat.add] in Hok; cbn [Nat.add take flat_map app];
          repeat (rewrite retry_unfold;
                  erewrite perform_query_run by (cbn [heap]; exact Hheap);
                  unfold perform at 1;
                  cbn [respond calls heap trace snd sleep];
                  first [ rewrite Hok | rewrite Hfail by lia ]);
          rewrite <- ?app_assoc; reflexivity|]).
  lia.
Qed.

Lemma create_context_first_success_witness :
  let s := Remote {[ 0 := ApiClientObj "https://host/api/1.2" 1;
                     1 := DictObj ∅ ]}
                  (fun n _ => if decide (n < 2) then Raise HTTPError
                              else Ok (JStr "ctx")) 0 [] in
  let create := Query "POST" "https://host/api/1.2/contexts/create" JNull in
  ApiV1Client.create_context (ApiV1Client.Make 0) JNull s
  = (Ok (Some (JStr "ctx")),
     Remote (heap s) (respond s) 3
       [Called create; Slept 5; Called create; Slept 25; Called create]).
Proof.
  intros s create.
  refine (create_context_first_success (ApiV1Client.Make 0) JNull s
            "https://host/api/1.2" 1 2 (JStr "ctx") (fun _ => HTTPError)
            _ _ _ _).
  - vm_compute. reflexivity.
  - lia.
  - intros n Hn. cbn [respond s]. rewrite decide_True by (cbn in Hn; lia).
    reflexivity.
  - reflexivity.
Defined.

(** [upload_file] stops at the first upload that succeeds: after [k]
    failures, [k + 1] announcements and uploads have been made and [k] of
    the delays 1 and 0.3 slept. *)
Theorem upload_file_first_success (file_path : string) (s : remote) (k : nat)
    (answer : json) (failure : nat -> exn) :
  k < 3 ->
  let put := LogArtifact file_path (FileUploader.posix_parent file_path) in
  let line := Printed ("Deploying file: " +:+ file_path) in
  (forall n, calls s <= n < calls s + k -> respond s n put = Raise (failure n)) ->
  respond s (calls s + k) put = Ok answer ->
  FileUploader.upload_file file_path s
  = (Ok (Some tt),
     Remote (heap s) (respond s) (calls s + S k)
       (trace s
        ++ flat_map (fun delay => [line; Called put; Slept delay])
             (take k [1; 3 # 10]%Q)
        ++ [line; Called put])).
Proof.
  intros Hk put line Hfail Hok. subst put line.
  unfold FileUploader.upload_file.
  rewrite (Nat.add_comm (calls s)) in Hok. rewrite (Nat.add_comm (calls s)).
  do 3 (destruct k as [|k];
        [cbn [Nat.add] in Hok; cbn [Nat.add take flat_map app];
         repeat (rewrite retry_unfold;
                 unfold FileUploader.upload_file_body at 1, net_echo, perform,
                   mbind, prog_bind;
                 cbn [respond calls heap trace snd sleep];
                 first [ rewrite Hok | rewrite Hfail by lia ]);
         rewrite <- ?app_assoc; reflexivity|]).
  lia.
Qed.

Lemma upload_file_first_success_witness :
  let s := Remote ∅ (fun n _ => if decide (n < 1) then Raise ConnectionError
                                else Ok JNull) 0 [] in
  let put := LogArtifact "dist/a.whl" "dist" in
  let line := Printed "Deploying file: dist/a.whl" in
  FileUploader.upload_file "dist/a.whl" s
  = (Ok (Some tt),
     Remote ∅ (respond s) 2 [line; Called put; Slept 1; line; Called put]).
Proof.
  intros s put line.
  refine (upload_file_first_success "dist/a.whl" s 1 JNull
            (fun _ => ConnectionError) _ _ _).
  - lia.
  - intros n Hn. cbn [respond s]. rewrite decide_True by (cbn in Hn; lia).
    reflexivity.
  - reflexivity.
Defined.
End RemoteMore.

(** ** The search filter and the tags *)

Module FilterFacts.

Lemma append_empty (x : string) : x +:+ EmptyString = x.
Proof.
  induction x as [|c x IH]; [reflexivity|].
  change (String c (x +:+ EmptyString) = String c x). now rewrite IH.
Qed.

Lemma append_assoc (x y z : string) : (x +:+ y) +:+ z = x +:+ (y +:+ z).
Proof.
  induction x as [|c x IH]; [reflexivity|].
  change (String c ((x +:+ y) +:+ z) = String c (x +:+ (y +:+ z))).
  now rewrite IH.
Qed.

Lemma concat_snoc (sep x y : string) (l : list string) :
  String.concat sep ((x :: l) ++ [y]) = String.concat sep (x :: l) +:+ sep +:+ y.
Proof.
  revert x. induction l as [|z l IH]; intros x.
  - reflexivity.
  - change (String.concat sep ((x :: z :: l) ++ [y]))
      with (x +:+ sep +:+ String.concat sep ((z :: l) ++ [y])).
    change (String.concat sep (x :: z :: l))
      with (x +:+ sep +:+ String.concat sep (z :: l)).
    rewrite IH. now rewrite !append_assoc.
Qed.

(** One more tag adds one more condition at the end of the filter and
    leaves the rest as it is. *)
Theorem filter_string_more_tags (environ : gmap string string)
    (repo : repository) (env : string) (tags : list (string * string))
    (k v : string) :
  generate_filter_string environ repo env (tags ++ [(k, v)])
  = generate_filter_string environ repo env tags
    +:+ " and " +:+ tag_filter k v.
Proof.
  unfold generate_filter_string. rewrite map_app. cbn [map fst snd].
  destruct (get_current_branch_name environ repo) as [[|c r]|];
    cbn [app]; rewrite ?app_assoc;
    try (rewrite <- app_assoc; cbn [app]);
    rewrite app_comm_cons; rewrite ?app_comm_cons; apply concat_snoc.
Qed.

Lemma split_trailing (sep : ascii) (p : string) :
  Str.split sep (p +:+ String sep EmptyString)
  = Str.split sep p ++ [EmptyString].
Proof.
  induction p as [|c p IH].
  - change (Str.split sep (String sep EmptyString) = [EmptyString; EmptyString]).
    cbn [Str.split]. now rewrite decide_True.
  - change (Str.split sep (String c (p +:+ String sep EmptyString))
            = Str.split sep (String c p) ++ [EmptyString]).
    cbn [Str.split]. rewrite IH. destruct (decide (c = sep)); [reflexivity|].
    pose proof (StrFacts.split_nonempty sep p).
    now destruct (Str.split sep p).
Qed.

(** A reference that is empty or ends with a slash names no branch: the
    filter then has no branch condition, as without [GITHUB_REF] outside a
    repository; it is not the filter of a branch with an empty name. *)
Theorem filter_string_empty_branch (environ : gmap string string)
    (repo : repository) (env : string) (tags : list (string * string))
    (p : string) :
  generate_filter_string (<["GITHUB_REF" := p +:+ "/"]> environ) repo env tags
  = generate_filter_string (delete "GITHUB_REF" environ) NotARepository env tags
  /\ generate_filter_string (<["GITHUB_REF" := ""]> environ) repo env tags
     = generate_filter_string (delete "GITHUB_REF" environ) NotARepository env
         tags.
Proof.
  unfold generate_filter_string, get_current_branch_name.
  rewrite !lookup_insert_eq, lookup_delete_eq.
  rewrite split_trailing, last_last. split; reflexivity.
Qed.

(** On a branch, the condition on the branch name follows the three fixed
    conditions. *)
Theorem filter_string_branch (environ : gmap string string) (env name : string) :
  name <> EmptyString ->
  generate_filter_string (delete "GITHUB_REF" environ) (OnBranch name) env []
  = generate_filter_string (delete "GITHUB_REF" environ) DetachedHead env []
    +:+ " and " +:+ tag_filter "dbx_branch_name" name.
Proof.
  intros Hn. unfold generate_filter_string, get_current_branch_name.
  rewrite lookup_delete_eq. destruct name as [|c r]; [contradiction|].
  cbn [map app]. apply (concat_snoc " and " _ _ [_; _]).
Qed.

Lemma filter_string_branch_witness :
  generate_filter_string (delete "GITHUB_REF" ∅) (OnBranch "main") "default" []
  = generate_filter_string (delete "GITHUB_REF" ∅) DetachedHead "default" []
    +:+ " and " +:+ tag_filter "dbx_branch_name" "main".
Proof.
  refine (filter_string_branch ∅ "default" "main" _). discriminate.
Defined.
End FilterFacts.

Module TagMore.
Import TagFacts.

(** Parsing two lists in a row: the tags of the second list come on top of
    those of the first, and the whole fails as soon as one of the two
    does. *)
Theorem parse_multiple_app (l1 l2 : list string) :
  parse_multiple (l1 ++ l2)
  = match parse_multiple l1, parse_multiple l2 with
    | Ok tags1, Ok tags2 => Ok (tags2 ∪ tags1)
    | _, _ => Raise IndexError
    end.
Proof.
  induction l2 as [|s l2 IH] using rev_ind.
  - rewrite app_nil_r. cbn.
    destruct (parse_multiple l1) as [m|e] eqn:E.
    + now rewrite (left_id_L ∅ (∪)).
    + now rewrite (parse_multiple_raises l1 e E).
  - rewrite app_assoc, !parse_multiple_snoc, IH.
    destruct (parse_multiple l1) as [m1|e1]; [|reflexivity].
    destruct (parse_multiple l2) as [m2|e2] eqn:E2.
    + destruct (Str.split "=" s) as [|k [|v rest]]; try reflexivity.
      now rewrite insert_union_l.
    + reflexivity.
Qed.
End TagMore.
